(** * LoRa link-budget calculator and line-of-sight analyser

    A shallow embedding of [LoRaCalculator] and of the pure part of
    [ElevationService] (src/lora-calculator.js).

    Numbers.  A JavaScript Number is modelled by [num]: a real number, or one
    of the three special values +Infinity, -Infinity and NaN.  Arithmetic on
    finite values is exact (no rounding) and there is a single zero, taken
    to be +0.  The special values follow the IEEE rules the engine applies:
    division of a non-zero number by zero is an infinity, 0/0 and
    Infinity-Infinity are NaN, every ordered comparison with NaN is false.
    The range of a double is modelled where a result leaves it for ordinary
    arguments: the power that [calculateMaxRange] returns underflows to 0
    and overflows to +Infinity (module [Double]). *)

From Stdlib Require Import Reals Lra Lia ZArith List Bool Sorted.
Import ListNotations.

Open Scope R_scope.

(** ** JavaScript numbers *)

Module JS.

Inductive num : Type :=
| Fin (r : R)
| PInf
| NInf
| NaN.

Definition Rltb (x y : R) : bool := if Rlt_dec x y then true else false.
Definition Rleb (x y : R) : bool := if Rle_dec x y then true else false.
Definition Reqb (x y : R) : bool := if Req_dec_T x y then true else false.

(** The infinity with the sign of [r], NaN when [r] is zero. *)
Definition signed_inf (r : R) : num :=
  if Rltb 0 r then PInf else if Rltb r 0 then NInf else NaN.

Definition neg (a : num) : num :=
  match a with
  | Fin r => Fin (- r)
  | PInf => NInf
  | NInf => PInf
  | NaN => NaN
  end.

Definition add (a b : num) : num :=
  match a, b with
  | NaN, _ | _, NaN => NaN
  | Fin x, Fin y => Fin (x + y)
  | PInf, NInf | NInf, PInf => NaN
  | PInf, _ | _, PInf => PInf
  | NInf, _ | _, NInf => NInf
  end.

Definition sub (a b : num) : num := add a (neg b).

Definition mul (a b : num) : num :=
  match a, b with
  | NaN, _ | _, NaN => NaN
  | Fin x, Fin y => Fin (x * y)
  | Fin x, PInf | PInf, Fin x => signed_inf x
  | Fin x, NInf | NInf, Fin x => signed_inf (- x)
  | PInf, PInf | NInf, NInf => PInf
  | PInf, NInf | NInf, PInf => NInf
  end.

(** The divisor zero is +0: [x / 0] has the sign of [x]. *)
Definition div (a b : num) : num :=
  match a, b with
  | NaN, _ | _, NaN => NaN
  | Fin x, Fin y => if Reqb y 0 then signed_inf x else Fin (x / y)
  | Fin _, PInf | Fin _, NInf => Fin 0
  | PInf, Fin y => if Rltb y 0 then NInf else PInf
  | NInf, Fin y => if Rltb y 0 then PInf else NInf
  | PInf, PInf | PInf, NInf | NInf, PInf | NInf, NInf => NaN
  end.

(** [a < b], [a <= b] and [a === b]; [a > b] is [lt b a]. *)
Definition lt (a b : num) : bool :=
  match a, b with
  | NaN, _ | _, NaN => false
  | Fin x, Fin y => Rltb x y
  | NInf, Fin _ | NInf, PInf | Fin _, PInf => true
  | _, _ => false
  end.

Definition le (a b : num) : bool :=
  match a, b with
  | NaN, _ | _, NaN => false
  | Fin x, Fin y => Rleb x y
  | NInf, _ | _, PInf => true
  | _, _ => false
  end.

Definition gt (a b : num) : bool := lt b a.
Definition ge (a b : num) : bool := le b a.

Definition eq (a b : num) : bool :=
  match a, b with
  | Fin x, Fin y => Reqb x y
  | PInf, PInf | NInf, NInf => true
  | _, _ => false
  end.

Definition is_nan (a : num) : bool :=
  match a with NaN => true | _ => false end.

(** [Math.max] and [Math.min] of two arguments. *)
Definition Math_max (a b : num) : num :=
  if is_nan a || is_nan b then NaN else if lt a b then b else a.

Definition Math_min (a b : num) : num :=
  if is_nan a || is_nan b then NaN else if lt b a then b else a.

Definition Math_sqrt (a : num) : num :=
  match a with
  | Fin r => if Rltb r 0 then NaN else Fin (sqrt r)
  | PInf => PInf
  | NInf | NaN => NaN
  end.

Definition Math_log10 (a : num) : num :=
  match a with
  | Fin r =>
      if Rltb r 0 then NaN
      else if Reqb r 0 then NInf
      else Fin (ln r / ln 10)
  | PInf => PInf
  | NInf | NaN => NaN
  end.

(** [Math.pow(b, e)] at a finite base [b > 1]; the calculator only raises
    the literals 2 and 10 to a power. *)
Definition Math_pow (b : R) (e : num) : num :=
  match e with
  | Fin y => Fin (Rpower b y)
  | PInf => PInf
  | NInf => Fin 0
  | NaN => NaN
  end.

(** [Math.round] rounds half-way cases up; [Math.ceil]. *)
Definition Math_round (a : num) : num :=
  match a with
  | Fin r => Fin (IZR (Zfloor (r + / 2)))
  | _ => a
  end.

Definition Math_ceil (a : num) : num :=
  match a with
  | Fin r => Fin (IZR (Zceil r))
  | _ => a
  end.

Definition Math_sin (a : num) : num :=
  match a with Fin r => Fin (sin r) | _ => NaN end.

Definition Math_cos (a : num) : num :=
  match a with Fin r => Fin (cos r) | _ => NaN end.

Definition Math_atan2 (y x : num) : num :=
  match y, x with
  | NaN, _ | _, NaN => NaN
  | Fin b, Fin a =>
      if Rltb 0 a then Fin (atan (b / a))
      else if Rltb a 0 then
        (if Rltb b 0 then Fin (atan (b / a) - PI) else Fin (atan (b / a) + PI))
      else if Rltb 0 b then Fin (PI / 2)
      else if Rltb b 0 then Fin (- PI / 2)
      else Fin 0
  | Fin _, PInf => Fin 0
  | Fin b, NInf => if Rltb b 0 then Fin (- PI) else Fin PI
  | PInf, Fin _ => Fin (PI / 2)
  | NInf, Fin _ => Fin (- PI / 2)
  | PInf, PInf => Fin (PI / 4)
  | NInf, PInf => Fin (- PI / 4)
  | PInf, NInf => Fin (3 * PI / 4)
  | NInf, NInf => Fin (- 3 * PI / 4)
  end.

(** [Math.abs], and [Math.min(...l)] / [Math.max(...l)] on a spread array:
    the empty spread gives +Infinity and -Infinity. *)
Definition Math_abs (a : num) : num :=
  match a with
  | Fin r => Fin (Rabs r)
  | PInf | NInf => PInf
  | NaN => NaN
  end.

Definition Math_min_of (l : list num) : num := fold_left Math_min l PInf.
Definition Math_max_of (l : list num) : num := fold_left Math_max l NInf.

(** A natural number (a loop counter, a length) as a Number. *)
Definition of_nat (n : nat) : num := Fin (INR n).

(** [Array.prototype.sort(comparefn)]: the sort is stable, and [a] stays
    before [b] unless [comparefn(a, b) > 0] (a NaN result counts as 0).
    [insert x l] places [x], which precedes the elements of [l] in the
    array, into the already sorted [l]. *)
Fixpoint insert {A : Type} (comparefn : A -> A -> num) (x : A) (l : list A)
  : list A :=
  match l with
  | [] => [x]
  | y :: l' =>
      if gt (comparefn x y) (Fin 0) then y :: insert comparefn x l'
      else x :: l
  end.

Fixpoint sort {A : Type} (comparefn : A -> A -> num) (l : list A) : list A :=
  match l with
  | [] => []
  | x :: l' => insert comparefn x (sort comparefn l')
  end.

(** A value read from an object: a number, or [undefined] for a property
    that is absent. *)
Inductive value : Type :=
| Undefined
| Num (n : num).

(** ToNumber, applied when a value meets an arithmetic operator. *)
Definition to_num (v : value) : num :=
  match v with Undefined => NaN | Num n => n end.

(** The property key a number converts to, when that key is an integer
    literal: the keys of the sensitivity table are such literals. *)
Definition int_key (n : num) : option Z :=
  match n with
  | Fin r => if Reqb r (IZR (Zfloor r)) then Some (Zfloor r) else None
  | _ => None
  end.

(** Own-property lookup in an object literal with integer keys. *)
Fixpoint get {V : Type} (k : Z) (o : list (Z * V)) : option V :=
  match o with
  | [] => None
  | (k', v) :: o' => if Z.eqb k k' then Some v else get k o'
  end.

Definition prop {V : Type} (o : list (Z * V)) (n : num) : option V :=
  match int_key n with
  | Some k => get k o
  | None => None
  end.

(** Completion of a call: a returned value or a thrown exception. *)
Inductive exn : Type := TypeError.

Inductive completion (A : Type) : Type :=
| Ret (a : A)
| Throw (e : exn).
Arguments Ret {A} a.
Arguments Throw {A} e.

Definition bind {A B : Type} (c : completion A) (k : A -> completion B)
  : completion B :=
  match c with
  | Ret a => k a
  | Throw e => Throw e
  end.

End JS.

Import JS.

Declare Scope js_scope.
Delimit Scope js_scope with js.
Bind Scope js_scope with num.
Notation "a + b" := (add a b) : js_scope.
Notation "a - b" := (sub a b) : js_scope.
Notation "a * b" := (mul a b) : js_scope.
Notation "a / b" := (div a b) : js_scope.
Notation "'let*' x ':=' c 'in' k" := (bind c (fun x => k))
  (at level 10, x name, c at level 100, k at level 200).

Coercion Fin : R >-> num.

(** ** LoRaCalculator *)

Module LoRaCalculator.

(** LoRa sensitivity table (dBm): bandwidth, then spreading factor. *)
Definition sensitivityTable : list (Z * list (Z * R)) :=
  [ (125%Z, [ (7%Z, -123); (8%Z, -126); (9%Z, -129);
              (10%Z, -132); (11%Z, -134.5); (12%Z, -137) ]);
    (250%Z, [ (7%Z, -120); (8%Z, -123); (9%Z, -125);
              (10%Z, -128); (11%Z, -131); (12%Z, -133) ]);
    (500%Z, [ (7%Z, -117); (8%Z, -120); (9%Z, -122);
              (10%Z, -125); (11%Z, -128); (12%Z, -130) ]) ].

(** [this.sensitivityTable[bw][sf]]: reading [sf] of an absent row throws,
    reading an absent [sf] of a row yields [undefined]. *)
Definition getSensitivity (sf bw : num) : completion value :=
  match prop sensitivityTable bw with
  | None => Throw TypeError
  | Some row =>
      match prop row sf with
      | None => Ret Undefined
      | Some s => Ret (Num (Fin s))
      end
  end.

Definition calculateDataRate (sf bw cr : num) : num :=
  let bandwidth := (bw * 1000)%js in
  let codingRate := (4 / cr)%js in
  let symbolRate := (bandwidth / Math_pow 2 sf)%js in
  let dataRate := (symbolRate * sf * codingRate)%js in
  Math_round dataRate.

Definition calculateTimeOnAir (payloadBytes sf bw cr : num) : num :=
  let bandwidth := (bw * 1000)%js in
  let symbolDuration := (Math_pow 2 sf / bandwidth)%js in
  let preambleDuration := ((8 + 4.25) * symbolDuration)%js in
  let payloadSymbolNb :=
    (8 + Math_max
           (Math_ceil ((8 * payloadBytes - 4 * sf + 28) / (4 * sf)) * cr)
           0)%js in
  let payloadDuration := (payloadSymbolNb * symbolDuration)%js in
  ((preambleDuration + payloadDuration) * 1000)%js.

Definition calculateFSPL (distanceKm frequencyMHz : num) : num :=
  if le distanceKm 0 then 0
  else (20 * Math_log10 distanceKm + 20 * Math_log10 frequencyMHz + 32.45)%js.

Definition calculateFresnelRadius (d1 d2 frequencyMHz : num) : num :=
  let totalDistance := (d1 + d2)%js in
  if eq totalDistance 0 then 0
  else (17.3 * Math_sqrt ((d1 * d2) / (frequencyMHz * totalDistance)))%js.

Definition calculateMaxFresnelRadius (distanceKm frequencyMHz : num) : num :=
  let d1 := (distanceKm / 2)%js in
  let d2 := (distanceKm / 2)%js in
  calculateFresnelRadius d1 d2 frequencyMHz.

Inductive Status : Type := excellent | good | marginal | poor.

(** The argument of [calculateLinkBudget] and [calculateMaxRange];
    [fadeMargin] may be absent and then defaults to 10. *)
Record Params : Type := mkParams {
  txPower : num;
  txGain : num;
  rxGain : num;
  frequency : num;
  distance : num;
  sf : num;
  bw : num;
  cr : num;
  fadeMargin : option num
}.

Record Details : Type := mkDetails {
  d_txPower : num;
  d_txGain : num;
  d_rxGain : num;
  d_miscLosses : num;
  d_fadeMargin : num;
  d_requiredMargin : num
}.

Record LinkBudget : Type := mkLinkBudget {
  sensitivity : value;
  pathLoss : num;
  rxPower : num;
  linkMargin : num;
  linkBudget : num;
  dataRate : num;
  fresnelRadius : num;
  status : Status;
  details : Details
}.

Definition default (d : num) (o : option num) : num :=
  match o with Some n => n | None => d end.

Definition calculateLinkBudget (params : Params) : completion LinkBudget :=
  let txPower := txPower params in
  let txGain := txGain params in
  let rxGain := rxGain params in
  let frequency := frequency params in
  let distance := distance params in
  let sf := sf params in
  let bw := bw params in
  let cr := cr params in
  let fadeMargin := default 10 (fadeMargin params) in
  let* sensitivity := getSensitivity sf bw in
  let pathLoss := calculateFSPL distance frequency in
  let miscLosses : num := 2 in
  let rxPower := (txPower + txGain + rxGain - pathLoss - miscLosses)%js in
  let linkMargin := (rxPower - to_num sensitivity)%js in
  let requiredMargin := fadeMargin in
  let linkBudget := (linkMargin - fadeMargin)%js in
  let dataRate := calculateDataRate sf bw cr in
  let fresnelRadius := calculateMaxFresnelRadius distance frequency in
  let status :=
    if lt linkMargin requiredMargin then poor
    else if lt linkMargin (requiredMargin + 10) then marginal
    else if lt linkMargin (requiredMargin + 20) then good
    else excellent in
  Ret (mkLinkBudget sensitivity pathLoss rxPower linkMargin linkBudget
         dataRate fresnelRadius status
         (mkDetails txPower txGain rxGain miscLosses fadeMargin
            requiredMargin)).

Definition calculateMaxRange (params : Params) : completion num :=
  let txPower := txPower params in
  let txGain := txGain params in
  let rxGain := rxGain params in
  let frequency := frequency params in
  let sf := sf params in
  let bw := bw params in
  let fadeMargin := default 10 (fadeMargin params) in
  let* sensitivity := getSensitivity sf bw in
  let miscLosses : num := 2 in
  let pathLossBudget :=
    (txPower + txGain + rxGain - to_num sensitivity - miscLosses
     - fadeMargin)%js in
  let distance :=
    Math_pow 10
      ((pathLossBudget - 20 * Math_log10 frequency - 32.45) / 20)%js in
  Ret distance.

(** The same parameters with the [distance] property set. *)
Definition with_distance (d : num) (p : Params) : Params :=
  mkParams (txPower p) (txGain p) (rxGain p) (frequency p) d
           (sf p) (bw p) (cr p) (fadeMargin p).

(** One entry of [getRecommendedSettings]. *)
Record Recommendation : Type := mkRecommendation {
  rec_sf : num;
  rec_bw : num;
  rec_dataRate : num;
  rec_linkMargin : num;
  rec_score : num
}.

Definition sfOptions : list num := [Fin 7; Fin 8; Fin 9; Fin 10; Fin 11; Fin 12].
Definition bwOptions : list num := [Fin 125; Fin 250; Fin 500].

(** The link budget computed for one configuration of the grid. *)
Definition grid_params (distanceKm frequency sf bw : num) : Params :=
  mkParams 14 2 2 frequency distanceKm sf bw 5 (Some (Fin 10)).

(** The body of the inner loop: pushes the configuration when its link
    margin reaches 10 dB. *)
Definition recommend_step (distanceKm frequency sf : num)
    (recommendations : list Recommendation) (bw : num)
  : completion (list Recommendation) :=
  let* result := calculateLinkBudget (grid_params distanceKm frequency sf bw) in
  if ge (linkMargin result) 10
  then Ret (recommendations
            ++ [mkRecommendation sf bw (dataRate result) (linkMargin result)
                  (dataRate result * (linkMargin result / 10))%js])
  else Ret recommendations.

Fixpoint for_bw (distanceKm frequency sf : num) (bws : list num)
    (recommendations : list Recommendation)
  : completion (list Recommendation) :=
  match bws with
  | [] => Ret recommendations
  | bw :: bws' =>
      let* recommendations' :=
        recommend_step distanceKm frequency sf recommendations bw in
      for_bw distanceKm frequency sf bws' recommendations'
  end.

Fixpoint for_sf (distanceKm frequency : num) (sfs : list num)
    (recommendations : list Recommendation)
  : completion (list Recommendation) :=
  match sfs with
  | [] => Ret recommendations
  | sf :: sfs' =>
      let* recommendations' :=
        for_bw distanceKm frequency sf bwOptions recommendations in
      for_sf distanceKm frequency sfs' recommendations'
  end.

(** The comparator [(a, b) => b.score - a.score]. *)
Definition by_score (a b : Recommendation) : num :=
  (rec_score b - rec_score a)%js.

Definition getRecommendedSettings (distanceKm frequency : num)
  : completion (list Recommendation) :=
  let* recommendations := for_sf distanceKm frequency sfOptions [] in
  Ret (firstn 3 (sort by_score recommendations)).

End LoRaCalculator.

(** ** The range of a double

    What [calculateMaxRange] returns is the result of [Math.pow], a double:
    a positive real of at most 2^-1075, half the least positive double,
    rounds to 0, and a real from 2^1024 - 2^970 on rounds to +Infinity.
    [Double] holds [Math.pow] with that range and [calculateMaxRange] over
    it; inside the range they are the functions above. *)

Module Double.

Import LoRaCalculator.

Definition underflow_bound : R := / IZR (2 ^ 1075).
Definition overflow_bound : R := IZR (2 ^ 1024 - 2 ^ 970).

Definition Math_pow (b : R) (e : num) : num :=
  match JS.Math_pow b e with
  | Fin r =>
      if Rleb r underflow_bound then Fin 0
      else if Rleb overflow_bound r then PInf
      else Fin r
  | n => n
  end.

Definition calculateMaxRange (params : Params) : completion num :=
  let txPower := txPower params in
  let txGain := txGain params in
  let rxGain := rxGain params in
  let frequency := frequency params in
  let sf := sf params in
  let bw := bw params in
  let fadeMargin := default 10 (fadeMargin params) in
  let* sensitivity := getSensitivity sf bw in
  let miscLosses : num := 2 in
  let pathLossBudget :=
    (txPower + txGain + rxGain - to_num sensitivity - miscLosses
     - fadeMargin)%js in
  let distance :=
    Math_pow 10
      ((pathLossBudget - 20 * Math_log10 frequency - 32.45) / 20)%js in
  Ret distance.

End Double.

(** ** ElevationService (the computation; fetching and caches are left out) *)

Module ElevationService.

Import LoRaCalculator.

Definition earthRadius : num := 6371.

Record Sample : Type := mkSample {
  s_lat : num;
  s_lon : num;
  s_elevation : num;
  s_distance : num
}.

Record ElevationProfile : Type := mkProfile {
  profile : list Sample;
  totalDistance : num
}.

Record Building : Type := mkBuilding {
  b_lat : num;
  b_lon : num;
  b_height : num
}.

Inductive ObstructionType : Type := building | terrain.

Record Obstruction : Type := mkObstruction {
  o_distance : num;
  o_elevation : num;
  o_requiredHeight : num;
  o_obstruction : num;
  o_lat : num;
  o_lon : num;
  o_type : ObstructionType
}.

Inductive Quality : Type :=
| q_excellent | q_good | q_marginal | q_poor | q_blocked.

(** The object [analyzeLineOfSight] returns; the early return builds it
    without the [quality] and [totalDistance] properties. *)
Record LoSResult : Type := mkLoS {
  hasLoS : bool;
  obstructions : list Obstruction;
  fresnelClearance : num;
  quality : option Quality;
  r_totalDistance : option num
}.

Definition toRadians (degrees : num) : num := (degrees * PI / 180)%js.

Definition calculateDistance (lat1 lon1 lat2 lon2 : num) : num :=
  let dLat := toRadians (lat2 - lat1)%js in
  let dLon := toRadians (lon2 - lon1)%js in
  let a :=
    (Math_sin (dLat / 2) * Math_sin (dLat / 2)
     + Math_cos (toRadians lat1) * Math_cos (toRadians lat2)
       * Math_sin (dLon / 2) * Math_sin (dLon / 2))%js in
  let c := (2 * Math_atan2 (Math_sqrt a) (Math_sqrt (1 - a)))%js in
  (earthRadius * c)%js.

Definition calculateEarthBulge (d1 d2 : num) : num :=
  let bulge := ((d1 * d2) / (2 * earthRadius))%js in
  (bulge * 1000)%js.

(** The [buildings.forEach] callback: raises [obstructionHeight] to the top
    of a building closer than 50 m to the sample. *)
Definition raise_to_building (point : Sample) (obstructionHeight : num)
    (b : Building) : num :=
  let buildingDist :=
    calculateDistance (s_lat point) (s_lon point) (b_lat b) (b_lon b) in
  if lt buildingDist 0.05
  then Math_max obstructionHeight (s_elevation point + b_height b)%js
  else obstructionHeight.

(** What one iteration of the scan computes at a sample. *)
Section Scan.

Variables (totalDistance startElevation endElevation frequency : num).
Variable buildings : list Building.

Definition d1_at (point : Sample) : num := s_distance point.
Definition d2_at (point : Sample) : num :=
  (totalDistance - d1_at point)%js.

Definition adjustedLineHeight (point : Sample) : num :=
  let d1 := d1_at point in
  let d2 := d2_at point in
  let lineHeight :=
    (startElevation
     + (endElevation - startElevation) * (d1 / totalDistance))%js in
  let earthBulge := calculateEarthBulge d1 d2 in
  (lineHeight - earthBulge)%js.

Definition localFresnelRadius (point : Sample) : num :=
  calculateFresnelRadius (d1_at point) (d2_at point) frequency.

Definition requiredHeight (point : Sample) : num :=
  (adjustedLineHeight point + localFresnelRadius point * 0.6)%js.

Definition obstructionHeight (point : Sample) : num :=
  fold_left (raise_to_building point) buildings (s_elevation point).

Definition fresnelClearancePercent (point : Sample) : num :=
  let clearance := (adjustedLineHeight point - obstructionHeight point)%js in
  (clearance / localFresnelRadius point * 100)%js.

Definition obstructed (point : Sample) : bool :=
  gt (obstructionHeight point) (requiredHeight point).

Definition obstruction_at (point : Sample) : Obstruction :=
  mkObstruction (d1_at point) (obstructionHeight point)
    (requiredHeight point)
    (obstructionHeight point - requiredHeight point)%js
    (s_lat point) (s_lon point)
    (if gt (obstructionHeight point) (s_elevation point + 5)%js
     then building else terrain).

(** The loop body, on the loop state: the obstructions pushed so far and
    [minClearance]. *)
Definition scan_step (st : list Obstruction * num) (point : Sample)
  : list Obstruction * num :=
  let '(obstructions, minClearance) := st in
  let minClearance := Math_min minClearance (fresnelClearancePercent point) in
  if obstructed point
  then (obstructions ++ [obstruction_at point], minClearance)
  else (obstructions, minClearance).

End Scan.

(** The samples the loop visits: [profile[1]] to [profile[length - 2]]. *)
Definition interior (profile : list Sample) : list Sample :=
  removelast (tl profile).

(** The first match arm is the guard [profile.length < 2]; in the second,
    [first] is [profile[0]] and [last rest second] is
    [profile[profile.length - 1]]. *)
Definition analyzeLineOfSight (elevationProfile : ElevationProfile)
    (point1Height point2Height fresnelRadius frequency : num)
    (buildings : list Building) : LoSResult :=
  let profile := profile elevationProfile in
  let totalDistance := totalDistance elevationProfile in
  match profile with
  | [] | [_] => mkLoS false [] 0 None None
  | first :: second :: rest =>
      let startElevation := (s_elevation first + point1Height)%js in
      let endElevation :=
        (s_elevation (last rest second) + point2Height)%js in
      let '(obstructions, minClearance) :=
        fold_left
          (scan_step totalDistance startElevation endElevation frequency
             buildings)
          (interior profile) ([], PInf) in
      let hasLoS := Nat.eqb (length obstructions) 0 in
      let fresnelClearance := minClearance in
      let quality :=
        if negb hasLoS then q_blocked
        else if lt fresnelClearance 20 then q_poor
        else if lt fresnelClearance 60 then q_marginal
        else if lt fresnelClearance 100 then q_good
        else q_excellent in
      mkLoS hasLoS obstructions fresnelClearance (Some quality)
        (Some totalDistance)
  end.

(** [interpolatePath]: the points at the fractions i / numPoints,
    i = 0 .. numPoints (50 when the argument is absent). *)
Record Point : Type := mkPoint {
  p_lat : num;
  p_lon : num
}.

Definition point_at (lat1 lon1 lat2 lon2 : num) (numPoints i : nat) : Point :=
  let fraction := (of_nat i / of_nat numPoints)%js in
  let lat := (lat1 + (lat2 - lat1) * fraction)%js in
  let lon := (lon1 + (lon2 - lon1) * fraction)%js in
  mkPoint lat lon.

Definition interpolatePath (lat1 lon1 lat2 lon2 : num)
    (numPoints : option nat) : list Point :=
  let numPoints := match numPoints with Some n => n | None => 50%nat end in
  map (point_at lat1 lon1 lat2 lon2 numPoints) (seq 0 (S numPoints)).

(** [getTerrainStats]. *)
Record TerrainStats : Type := mkStats {
  t_min : num;
  t_max : num;
  t_avg : num;
  t_totalGain : num;
  t_totalLoss : num;
  t_elevationChange : num
}.

(** The gain/loss loop from index [i] on: [prev] is [elevations[i - 1]],
    the state is (totalGain, totalLoss). *)
Fixpoint gain_loss (prev : num) (elevations : list num) (st : num * num)
  : num * num :=
  match elevations with
  | [] => st
  | e :: rest =>
      let '(totalGain, totalLoss) := st in
      let diff := (e - prev)%js in
      gain_loss e rest
        (if gt diff 0 then ((totalGain + diff)%js, totalLoss)
         else (totalGain, (totalLoss + Math_abs diff)%js))
  end.

Definition getTerrainStats (elevationProfile : ElevationProfile)
  : TerrainStats :=
  let elevations := map s_elevation (profile elevationProfile) in
  let min := Math_min_of elevations in
  let max := Math_max_of elevations in
  let avg :=
    (fold_left add elevations 0 / of_nat (length elevations))%js in
  let '(totalGain, totalLoss) :=
    match elevations with
    | [] => (Fin 0, Fin 0)
    | e0 :: rest => gain_loss e0 rest (Fin 0, Fin 0)
    end in
  mkStats min max avg totalGain totalLoss (max - min)%js.

(** [getElevationProfile].  The elevation service is outside the program:
    [getElevations] stands for what it answers to a batch of locations (one
    value per location when it behaves, anything otherwise). *)
Section Profile.

Variable getElevations : list Point -> list value.

(** [l.slice(i, j)]. *)
Definition slice {A : Type} (i j : nat) (l : list A) : list A :=
  firstn (j - i) (skipn i l).

Definition batchSize : nat := 50.

(** The batch loop from index [i] on; it runs at most once per path point,
    which is what [fuel] counts. *)
Fixpoint fetch_from (fuel i : nat) (pathPoints : list Point)
    (elevations : list value) : list value :=
  match fuel with
  | O => elevations
  | S fuel' =>
      if Nat.ltb i (length pathPoints)
      then
        let batch := slice i (i + batchSize) pathPoints in
        let batchElevations := getElevations batch in
        fetch_from fuel' (i + batchSize) pathPoints
          (elevations ++ batchElevations)
      else elevations
  end.

(** [elevations[index] || 0]: an absent or falsy entry (undefined, 0, NaN)
    yields 0. *)
Definition or_zero (v : option value) : num :=
  match v with
  | Some (Num n) => if is_nan n || eq n 0 then 0 else n
  | _ => 0
  end.

(** The returned object: the profile with its total distance, and the
    properties [startElevation] and [endElevation]. *)
Record ProfileResult : Type := mkProfileResult {
  pr_profile : ElevationProfile;
  pr_startElevation : num;
  pr_endElevation : num
}.

Definition sample_at (pathPoints : list Point) (elevations : list value)
    (totalDistance : num) (index : nat) (point : Point) : Sample :=
  let distanceFromStart :=
    (of_nat index / (of_nat (length pathPoints) - 1) * totalDistance)%js in
  mkSample (p_lat point) (p_lon point)
    (or_zero (nth_error elevations index)) distanceFromStart.

(** [array.map((x, index) => f(index, x))], from index [i] on. *)
Fixpoint map_index {A B : Type} (f : nat -> A -> B) (i : nat) (l : list A)
  : list B :=
  match l with
  | [] => []
  | x :: l' => f i x :: map_index f (S i) l'
  end.

Definition getElevationProfile (point1 point2 : Point)
    (numSamples : option nat) : ProfileResult :=
  let pathPoints :=
    interpolatePath (p_lat point1) (p_lon point1)
      (p_lat point2) (p_lon point2) numSamples in
  let elevations :=
    fetch_from (length pathPoints) 0 pathPoints [] in
  let totalDistance :=
    calculateDistance (p_lat point1) (p_lon point1)
      (p_lat point2) (p_lon point2) in
  let profile :=
    map_index (sample_at pathPoints elevations totalDistance) 0 pathPoints in
  mkProfileResult (mkProfile profile totalDistance)
    (or_zero (nth_error elevations 0))
    (or_zero (match length elevations with
              | O => None
              | S k => nth_error elevations k
              end)).

End Profile.

End ElevationService.

Import LoRaCalculator.
Import ElevationService.

(** ** Vocabulary of the statements *)

(** Splits on every comparison of reals in the goal and closes the cases
    that linear arithmetic refutes. *)
Ltac rdec :=
  unfold Rltb, Rleb, Reqb in *;
  repeat match goal with
    | |- context [Rlt_dec ?a ?b] => destruct (Rlt_dec a b)
    | |- context [Rle_dec ?a ?b] => destruct (Rle_dec a b)
    | |- context [Req_dec_T ?a ?b] => destruct (Req_dec_T a b)
    | H : context [Rlt_dec ?a ?b] |- _ => destruct (Rlt_dec a b)
    | H : context [Rle_dec ?a ?b] |- _ => destruct (Rle_dec a b)
    | H : context [Req_dec_T ?a ?b] |- _ => destruct (Req_dec_T a b)
    end;
  try reflexivity; try discriminate; try lra.

(** The bandwidths and spreading factors of the table. *)
Definition bw_keys : list Z := [125; 250; 500]%Z.
Definition sf_keys : list Z := [7; 8; 9; 10; 11; 12]%Z.

Definition is_key (keys : list Z) (n : num) : Prop :=
  exists z, In z keys /\ n = Fin (IZR z).

(** The domain the specification gives to the lookup. *)
Definition bw_listed (bw : num) : bool := eq bw 125 || eq bw 250 || eq bw 500.
Definition sf_in_range (sf : num) : bool := le 7 sf && le sf 12.

(** The quantities of the specification's formula, in its words. *)
Definition preambleSymbols : num := (8 + 4.25)%js.

Definition payloadSymbols (payloadBytes sf cr : num) : num :=
  (8 + Math_max
         (Math_ceil ((8 * payloadBytes - 4 * sf + 28) / (4 * sf)) * cr) 0)%js.

Definition symbolPeriod (sf bw : num) : num :=
  (Math_pow 2 sf / (bw * 1000))%js.

(** (preamble + payload symbols) x symbol period: a duration in seconds. *)
Definition timeOnAir_seconds (payloadBytes sf bw cr : num) : num :=
  ((preambleSymbols + payloadSymbols payloadBytes sf cr)
   * symbolPeriod sf bw)%js.

Definition is_fin (n : num) : Prop := exists r, n = Fin r.

(** Finite transmit power, gains, frequency and fade margin. *)
Definition finite_params (p : Params) : Prop :=
  is_fin (txPower p) /\ is_fin (txGain p) /\ is_fin (rxGain p) /\
  is_fin (frequency p) /\ is_fin (default 10 (fadeMargin p)).

Definition in_table (p : Params) : Prop :=
  is_key sf_keys (sf p) /\ is_key bw_keys (bw p).

(** [Math.abs(a - b) <= 0.1]. *)
Definition within_tolerance (a b : num) : bool :=
  le (a - b)%js 0.1 && le (-0.1) (a - b)%js.

(** The link margin at the maximum range is the fade margin, up to 0.1 dB. *)
Definition margin_at_max_range (p : Params) : Prop :=
  exists d r,
    Double.calculateMaxRange p = Ret d /\
    calculateLinkBudget (with_distance d p) = Ret r /\
    within_tolerance (linkMargin r) (default 10 (fadeMargin p)) = true.

(** The maximum range is a finite, strictly positive distance. *)
Definition positive_range (p : Params) : Prop :=
  exists d, Double.calculateMaxRange p = Ret (Fin d) /\ 0 < d.

(** Power, gains and fade margin of at most 1000 dB in magnitude and a
    frequency between 10^-6 MHz and 10^6 MHz. *)
Definition bounded_params (p : Params) : Prop :=
  exists tx tg rg f F,
    txPower p = Fin tx /\ txGain p = Fin tg /\ rxGain p = Fin rg /\
    frequency p = Fin f /\ default 10 (fadeMargin p) = Fin F /\
    Rabs tx <= 1000 /\ Rabs tg <= 1000 /\ Rabs rg <= 1000 /\
    Rabs F <= 1000 /\ / 1000000 <= f <= 1000000.

(** Sample parameters: 2 dBi antennas, 868 MHz, SF7 at 125 kHz, CR 4/5, the
    default fade margin, with the transmit power [tx]. *)
Definition params_tx (tx : R) : Params :=
  mkParams tx 2 2 868 1 7 125 5 None.

(** The exponent of the distance returned for finite parameters. *)
Definition range_exponent (tx tg rg s F f : R) : R :=
  (tx + tg + rg - s - 2 - F - 20 * (ln f / ln 10) - 32.45) / 20.

(** Sample parameters: 14 dBm, 2 dBi antennas, SF7 at 125 kHz, CR 4/5, the
    default fade margin, at the frequency [f]. *)
Definition params_at (f : R) : Params :=
  mkParams 14 2 2 f 1 7 125 5 None.

(** The quality the verdict rule assigns to a clearance percentage. *)
Definition classify (hasLoS : bool) (fresnelClearance : num) : Quality :=
  if negb hasLoS then q_blocked
  else if lt fresnelClearance 20 then q_poor
  else if lt fresnelClearance 60 then q_marginal
  else if lt fresnelClearance 100 then q_good
  else q_excellent.

(** The verdict rule, read on a result. *)
Definition verdict_rule (r : LoSResult) : Prop :=
  (hasLoS r = true <-> obstructions r = []) /\
  quality r = Some (classify (hasLoS r) (fresnelClearance r)).

(** The scenario of the specification: samples at 0 km / 0 m, 1 km / 500 m
    and 2 km / 0 m, antennas 10 m above ground, 868 MHz.  The hill blocks
    the path: one obstruction, at 1 km. *)
Definition hill_profile : ElevationProfile :=
  mkProfile [mkSample 45 7 0 0; mkSample 45 7.01 500 1; mkSample 45 7.02 0 2]
            2.

(** Splits membership in a literal list into its cases. *)
Ltac in_cases H :=
  simpl in H;
  repeat match type of H with
    | _ \/ _ => destruct H as [H|H]
    end;
  [subst .. | contradiction].

(** The entry the grid search pushes for one configuration (none when the
    margin is below 10 dB), and all of them in iteration order. *)
Definition grid_entry (distanceKm frequency sf bw : num)
  : list Recommendation :=
  match calculateLinkBudget (grid_params distanceKm frequency sf bw) with
  | Ret result =>
      if ge (linkMargin result) 10
      then [mkRecommendation sf bw (dataRate result) (linkMargin result)
              (dataRate result * (linkMargin result / 10))%js]
      else []
  | Throw _ => []
  end.

Definition grid_entries (distanceKm frequency : num) : list Recommendation :=
  flat_map (fun sf => flat_map (grid_entry distanceKm frequency sf) bwOptions)
    sfOptions.

(** Scores in descending order. *)
Definition score_ge (a b : Recommendation) : Prop :=
  le (rec_score b) (rec_score a) = true.

(** The haversine term [a] of [calculateDistance], on reals (degrees). *)
Definition haversine_a (lat1 lon1 lat2 lon2 : R) : R :=
  sin ((lat2 - lat1) * PI / 180 / 2) * sin ((lat2 - lat1) * PI / 180 / 2)
  + cos (lat1 * PI / 180) * cos (lat2 * PI / 180)
    * sin ((lon2 - lon1) * PI / 180 / 2) * sin ((lon2 - lon1) * PI / 180 / 2).

(** A flat path of three samples over 2 km, and a building of height [h]
    standing on its middle sample. *)
Definition flat_profile : ElevationProfile :=
  mkProfile [mkSample 45 7 0 0; mkSample 45 7.01 0 1; mkSample 45 7.02 0 2] 2.

Definition building_at_mid (h : num) : Building := mkBuilding 45 7.01 h.

(** ** Deciding comparisons of reals *)

Lemma Rltb_true x y : x < y -> Rltb x y = true.
Proof. intro H. unfold Rltb. destruct (Rlt_dec x y); [reflexivity | contradiction]. Qed.

Lemma Rltb_false x y : y <= x -> Rltb x y = false.
Proof. intro H. unfold Rltb. destruct (Rlt_dec x y); [lra | reflexivity]. Qed.

Lemma Rltb_iff x y : Rltb x y = true <-> x < y.
Proof. unfold Rltb. destruct (Rlt_dec x y); split; intro; auto; discriminate. Qed.

Lemma Rleb_true x y : x <= y -> Rleb x y = true.
Proof. intro H. unfold Rleb. destruct (Rle_dec x y); [reflexivity | contradiction]. Qed.

Lemma Rleb_false x y : y < x -> Rleb x y = false.
Proof. intro H. unfold Rleb. destruct (Rle_dec x y); [lra | reflexivity]. Qed.

Lemma Rleb_iff x y : Rleb x y = true <-> x <= y.
Proof. unfold Rleb. destruct (Rle_dec x y); split; intro; auto; discriminate. Qed.

Lemma Reqb_true x y : x = y -> Reqb x y = true.
Proof. intro H. unfold Reqb. destruct (Req_dec_T x y); [reflexivity | contradiction]. Qed.

Lemma Reqb_false x y : x <> y -> Reqb x y = false.
Proof. intro H. unfold Reqb. destruct (Req_dec_T x y); [contradiction | reflexivity]. Qed.

Lemma Reqb_iff x y : Reqb x y = true <-> x = y.
Proof. unfold Reqb. destruct (Req_dec_T x y); split; intro; auto; discriminate. Qed.

(** ** Property keys *)

Lemma Zfloor_IZR z : Zfloor (IZR z) = z.
Proof. apply Zfloor_eq. lra. Qed.

Lemma int_key_IZR z : int_key (Fin (IZR z)) = Some z.
Proof.
  unfold int_key. rewrite Zfloor_IZR, Reqb_true; reflexivity.
Qed.

Lemma int_key_Some n z : int_key n = Some z -> n = Fin (IZR z).
Proof.
  destruct n as [r| | |]; simpl; try discriminate.
  destruct (Reqb r (IZR (Zfloor r))) eqn:E; [|discriminate].
  apply Reqb_iff in E. intro H. injection H as <-. now rewrite <- E.
Qed.

Lemma prop_IZR {V} (o : list (Z * V)) z : prop o (Fin (IZR z)) = get z o.
Proof. unfold prop. now rewrite int_key_IZR. Qed.

Lemma prop_Some {V} (o : list (Z * V)) n v :
  prop o n = Some v -> exists z, n = Fin (IZR z) /\ get z o = Some v.
Proof.
  unfold prop. destruct (int_key n) as [z|] eqn:E; [|discriminate].
  intro H. exists z. split; [now apply int_key_Some | exact H].
Qed.

Lemma get_In {V} (o : list (Z * V)) z v :
  get z o = Some v -> In z (map fst o).
Proof.
  induction o as [|[k w] o IH]; simpl; [discriminate|].
  destruct (Z.eqb_spec z k) as [->|_]; [now left | right; auto].
Qed.

Lemma table_rows : map fst sensitivityTable = bw_keys.
Proof. reflexivity. Qed.

Lemma row_keys bw row :
  get bw sensitivityTable = Some row -> map fst row = sf_keys.
Proof.
  unfold sensitivityTable. simpl.
  repeat (destruct (Z.eqb bw _);
          [intro H; injection H as <-; reflexivity|]).
  discriminate.
Qed.

Lemma get_None {V} (o : list (Z * V)) z :
  ~ In z (map fst o) -> get z o = None.
Proof.
  intro H. destruct (get z o) eqn:E; [|reflexivity].
  exfalso. apply H. eapply get_In; eauto.
Qed.

Lemma get_is_Some {V} (o : list (Z * V)) z :
  In z (map fst o) -> exists v, get z o = Some v.
Proof.
  induction o as [|[k w] o IH]; simpl; [tauto|].
  destruct (Z.eqb_spec z k) as [->|Hne]; [eauto|].
  intros [H|H]; [congruence | auto].
Qed.

Lemma getSensitivity_throws sf bw :
  ~ is_key bw_keys bw -> getSensitivity sf bw = Throw TypeError.
Proof.
  intro H. unfold getSensitivity.
  destruct (prop sensitivityTable bw) as [row|] eqn:E; [|reflexivity].
  exfalso. apply H. apply prop_Some in E. destruct E as [z [-> E]].
  exists z. split; [|reflexivity].
  rewrite <- table_rows. eapply get_In; eauto.
Qed.

Lemma getSensitivity_undefined sf bw :
  is_key bw_keys bw -> ~ is_key sf_keys sf ->
  getSensitivity sf bw = Ret Undefined.
Proof.
  intros [z [Hz ->]] Hsf. unfold getSensitivity. rewrite prop_IZR.
  rewrite <- table_rows in Hz. apply get_is_Some in Hz. destruct Hz as [row Hrow].
  rewrite Hrow.
  destruct (prop row sf) as [s|] eqn:E; [|reflexivity].
  exfalso. apply Hsf. apply prop_Some in E. destruct E as [k [-> E]].
  exists k. split; [|reflexivity].
  rewrite <- (row_keys _ _ Hrow). eapply get_In; eauto.
Qed.

Lemma getSensitivity_defined sf bw :
  is_key bw_keys bw -> is_key sf_keys sf ->
  exists s, getSensitivity sf bw = Ret (Num (Fin s)).
Proof.
  intros [z [Hz ->]] [k [Hk ->]]. unfold getSensitivity. rewrite prop_IZR.
  rewrite <- table_rows in Hz. apply get_is_Some in Hz. destruct Hz as [row Hrow].
  rewrite Hrow, prop_IZR.
  rewrite <- (row_keys _ _ Hrow) in Hk. apply get_is_Some in Hk.
  destruct Hk as [s ->]. eauto.
Qed.

Lemma is_key_IZR keys z : In z keys -> is_key keys (Fin (IZR z)).
Proof. intro H. exists z. auto. Qed.

Lemma not_is_key_IZR keys z : ~ In z keys -> ~ is_key keys (Fin (IZR z)).
Proof.
  intros H [k [Hk E]]. injection E as E. apply eq_IZR in E. congruence.
Qed.

(** ** Sensitivity lookup *)

Lemma eq_Fin_iff n r : eq n (Fin r) = true <-> n = Fin r.
Proof.
  destruct n as [x| | |]; simpl; try (split; discriminate).
  rewrite Reqb_iff. split; [now intros -> | now intros [= ->]].
Qed.

Lemma bw_listed_iff bw : bw_listed bw = true <-> is_key bw_keys bw.
Proof.
  unfold bw_listed. rewrite !orb_true_iff, !eq_Fin_iff. split.
  - intros [[->| ->]| ->].
    + exists 125%Z. simpl. auto.
    + exists 250%Z. simpl. auto.
    + exists 500%Z. simpl. auto.
  - intros [z [Hz ->]]. simpl in Hz.
    destruct Hz as [<-|[<-|[<-|[]]]]; auto.
Qed.

Lemma sf_key_in_range sf : is_key sf_keys sf -> sf_in_range sf = true.
Proof.
  intros [z [Hz ->]]. unfold sf_in_range. simpl in *.
  destruct Hz as [<-|[<-|[<-|[<-|[<-|[<-|[]]]]]]]; rdec.
Qed.

(** C2, as stated, fails: with a listed bandwidth and the spreading factor
    13, outside [7,12], the lookup returns [undefined] and raises nothing. *)
Lemma getSensitivity_sf13_returns_undefined :
  bw_listed 125 = true /\ sf_in_range 13 = false /\
  getSensitivity 13 125 = Ret Undefined /\
  ~ (exists e, getSensitivity 13 125 = Throw e).
Proof.
  assert (E : getSensitivity 13 125 = Ret Undefined).
  { apply getSensitivity_undefined.
    - apply is_key_IZR. simpl. auto.
    - apply not_is_key_IZR. simpl. lia. }
  repeat split.
  - apply bw_listed_iff, is_key_IZR. simpl. auto.
  - unfold sf_in_range. simpl. rdec.
  - exact E.
  - rewrite E. intros [e H]. discriminate.
Qed.

(** C2, amended: the lookup validates nothing.  A bandwidth that is not
    125, 250 or 500 makes it throw (the TypeError of reading a property of
    [undefined]); with a listed bandwidth, a spreading factor that is not a
    key of the row, in particular any outside [7,12], yields [undefined]
    and no exception. *)
Theorem getSensitivity_unvalidated (sf bw : num) :
  (bw_listed bw = false -> getSensitivity sf bw = Throw TypeError) /\
  (bw_listed bw = true -> sf_in_range sf = false \/ ~ is_key sf_keys sf ->
   getSensitivity sf bw = Ret Undefined).
Proof.
  split.
  - intro H. apply getSensitivity_throws. rewrite <- bw_listed_iff. congruence.
  - intros Hbw Hsf. apply getSensitivity_undefined.
    + now apply bw_listed_iff.
    + destruct Hsf as [Hsf|Hsf]; [|exact Hsf].
      intro K. apply sf_key_in_range in K. congruence.
Qed.

Lemma getSensitivity_unvalidated_witness :
  getSensitivity 7 100 = Throw TypeError /\
  getSensitivity 13 125 = Ret Undefined.
Proof.
  split.
  - apply (proj1 (getSensitivity_unvalidated 7 100)).
    unfold bw_listed. simpl. rdec.
  - apply (proj2 (getSensitivity_unvalidated 13 125)).
    + unfold bw_listed. simpl. rdec.
    + left. unfold sf_in_range. simpl. rdec.
Defined.

(** ** Data rate *)

Lemma Rpower_nonzero b y : Rpower b y <> 0.
Proof. unfold Rpower. generalize (exp_pos (y * ln b)). lra. Qed.

Lemma Rpower_2_7 : Rpower 2 7 = 128.
Proof.
  replace 7 with (INR 7) by (simpl; lra).
  rewrite Rpower_pow by lra. simpl. lra.
Qed.

Lemma calculateDataRate_fin (sf bw cr : R) :
  cr <> 0 ->
  calculateDataRate sf bw cr
  = Fin (IZR (Zfloor (bw * 1000 / Rpower 2 sf * sf * (4 / cr) + / 2))).
Proof.
  intro Hcr. unfold calculateDataRate. simpl.
  rewrite (Reqb_false cr 0) by exact Hcr.
  rewrite (Reqb_false (Rpower 2 sf) 0) by apply Rpower_nonzero.
  reflexivity.
Qed.

(** C3, as stated, fails at its own instance: the rate is 5468.75 before
    rounding, and [Math.round] gives 5469, not 5468. *)
Lemma calculateDataRate_7_125_5_not_5468 :
  calculateDataRate 7 125 5 <> Fin 5468.
Proof.
  rewrite calculateDataRate_fin by lra. rewrite Rpower_2_7.
  replace (125 * 1000 / 128 * 7 * (4 / 5) + / 2) with 5469.25 by lra.
  rewrite (Zfloor_eq 5469) by lra.
  intro H. injection H as H. lra.
Qed.

(** C3, amended: [calculateDataRate] is sf * (bw_Hz / 2^sf) * (4/cr)
    rounded to the nearest integer, and
    dataRate(sf=7, bw=125, cr=5) = 5469 bps. *)
Theorem calculateDataRate_rounds (sf bw cr : R) :
  cr <> 0 ->
  (exists z : Z,
      calculateDataRate sf bw cr = Fin (IZR z) /\
      Rabs (IZR z - sf * (bw * 1000 / Rpower 2 sf) * (4 / cr)) <= / 2) /\
  calculateDataRate 7 125 5 = Fin 5469.
Proof.
  intro Hcr. split.
  - rewrite calculateDataRate_fin by exact Hcr.
    set (x := bw * 1000 / Rpower 2 sf * sf * (4 / cr)).
    exists (Zfloor (x + / 2)). split; [reflexivity|].
    replace (sf * (bw * 1000 / Rpower 2 sf) * (4 / cr)) with x
      by (unfold x; ring).
    generalize (Zfloor_bound (x + / 2)). intros [H1 H2].
    apply Rabs_le. lra.
  - rewrite calculateDataRate_fin by lra. rewrite Rpower_2_7.
    replace (125 * 1000 / 128 * 7 * (4 / 5) + / 2) with 5469.25 by lra.
    now rewrite (Zfloor_eq 5469) by lra.
Qed.

Lemma calculateDataRate_rounds_witness :
  calculateDataRate 7 125 5 = Fin 5469.
Proof.
  apply (proj2 (calculateDataRate_rounds 7 125 5 ltac:(lra))).
Defined.

(** ** Time on air *)

(** A symbol count 8 + max(x, 0) is NaN, +Infinity or a real above 8. *)
Lemma payloadSymbols_shape payloadBytes sf cr :
  payloadSymbols payloadBytes sf cr = NaN \/
  payloadSymbols payloadBytes sf cr = PInf \/
  exists n, payloadSymbols payloadBytes sf cr = Fin n /\ 8 <= n.
Proof.
  unfold payloadSymbols.
  destruct (Math_ceil ((8 * payloadBytes - 4 * sf + 28) / (4 * sf)) * cr)%js
    as [x| | |]; unfold Math_max; simpl; auto.
  - right; right. unfold Rltb. destruct (Rlt_dec x 0); simpl.
    + exists (8 + 0). split; [reflexivity | lra].
    + exists (8 + x). split; [reflexivity | lra].
  - right; right. exists (8 + 0). split; [reflexivity | lra].
Qed.

Lemma symbols_times_period (a n t : num) :
  (exists x, a = Fin x /\ 0 < x) ->
  (n = NaN \/ n = PInf \/ exists y, n = Fin y /\ 8 <= y) ->
  (a * t + n * t)%js = ((a + n) * t)%js.
Proof.
  intros [x [-> Hx]] [->|[->|[y [-> Hy]]]]; destruct t as [r| | |]; simpl;
    unfold signed_inf; rdec.
  f_equal. ring.
Qed.

Lemma timeOnAir_seconds_example :
  timeOnAir_seconds 10 7 125 5 = Fin 0.036096.
Proof.
  unfold timeOnAir_seconds, preambleSymbols, payloadSymbols, symbolPeriod.
  simpl. rewrite (Reqb_false (4 * 7) 0) by lra. simpl.
  match goal with
  | |- context [Zceil ?x] => rewrite (Zceil_eq 3 x) by lra
  end.
  unfold Math_max. simpl.
  rewrite (Rltb_false (3 * 5) 0) by lra. simpl.
  rewrite (Reqb_false (125 * 1000) 0) by lra. simpl.
  rewrite Rpower_2_7. f_equal. lra.
Qed.

(** C8, amended: the function returns the duration
    (preamble + payload symbols) x symbol period in milliseconds, that is
    1000 times the value in seconds, with preamble (8 + 4.25) symbols,
    payload 8 + max(ceil((8*payloadBytes - 4*sf + 28)/(4*sf)) * cr, 0)
    symbols and symbol period 2^sf / bw_Hz. *)
Theorem calculateTimeOnAir_milliseconds (payloadBytes sf bw cr : num) :
  calculateTimeOnAir payloadBytes sf bw cr
  = (timeOnAir_seconds payloadBytes sf bw cr * 1000)%js.
Proof.
  unfold calculateTimeOnAir, timeOnAir_seconds. f_equal.
  apply symbols_times_period.
  - exists (8 + 4.25). split; [reflexivity | lra].
  - apply payloadSymbols_shape.
Qed.

(** C8, as stated, fails: for a 10-byte payload at SF7, 125 kHz, CR 4/5 the
    duration is 0.036096 s and the function returns 36.096. *)
Lemma calculateTimeOnAir_not_seconds :
  timeOnAir_seconds 10 7 125 5 = Fin 0.036096 /\
  calculateTimeOnAir 10 7 125 5 = Fin 36.096 /\
  calculateTimeOnAir 10 7 125 5 <> timeOnAir_seconds 10 7 125 5.
Proof.
  assert (E : calculateTimeOnAir 10 7 125 5 = Fin 36.096).
  { unfold calculateTimeOnAir.
    rewrite symbols_times_period.
    - change (((8 + 4.25 +
               (8 + Math_max
                  (Math_ceil ((8 * 10 - 4 * 7 + 28) / (4 * 7)) * 5) 0))
               * (Math_pow 2 7 / (125 * 1000)))%js)
        with (timeOnAir_seconds 10 7 125 5).
      rewrite timeOnAir_seconds_example. simpl. f_equal. lra.
    - exists (8 + 4.25). split; [reflexivity | lra].
    - apply (payloadSymbols_shape 10 7 5). }
  split; [apply timeOnAir_seconds_example|].
  split; [exact E|].
  rewrite E, timeOnAir_seconds_example. intro H. injection H as H. lra.
Qed.

(** ** Fresnel radius *)

Lemma calculateFresnelRadius_zero (d1 d2 f : R) :
  d1 + d2 = 0 -> calculateFresnelRadius d1 d2 f = Fin 0.
Proof.
  intro H. unfold calculateFresnelRadius. simpl.
  now rewrite Reqb_true by exact H.
Qed.

Lemma calculateFresnelRadius_fin (d1 d2 f : R) :
  0 <= d1 -> 0 <= d2 -> 0 < d1 + d2 -> 0 < f ->
  calculateFresnelRadius d1 d2 f
  = Fin (17.3 * sqrt (d1 * d2 / (f * (d1 + d2)))).
Proof.
  intros H1 H2 Hd Hf. unfold calculateFresnelRadius. simpl.
  assert (Hp : 0 < f * (d1 + d2)) by (apply Rmult_lt_0_compat; lra).
  rewrite (Reqb_false (d1 + d2) 0) by lra. simpl.
  rewrite (Reqb_false (f * (d1 + d2)) 0) by lra. simpl.
  rewrite Rltb_false; [reflexivity|].
  apply Rmult_le_pos; [nra | left; now apply Rinv_0_lt_compat].
Qed.

Lemma calculateMaxFresnelRadius_midpoint (D f : R) :
  calculateMaxFresnelRadius D f
  = calculateFresnelRadius (Fin (D / 2)) (Fin (D / 2)) f.
Proof.
  unfold calculateMaxFresnelRadius. simpl.
  now rewrite (Reqb_false 2 0) by lra.
Qed.

(** C7: for a total distance D >= 0 split as d1 + d2 = D with d1, d2 >= 0
    and a frequency f > 0, the Fresnel radius at the midpoint, which is what
    [calculateMaxFresnelRadius] returns, is at least the radius at the
    split. *)
Theorem fresnel_radius_max_at_midpoint (D f d1 d2 : R) :
  0 <= D -> 0 < f -> 0 <= d1 -> 0 <= d2 -> d1 + d2 = D ->
  calculateMaxFresnelRadius D f
  = calculateFresnelRadius (Fin (D / 2)) (Fin (D / 2)) f /\
  ge (calculateFresnelRadius (Fin (D / 2)) (Fin (D / 2)) f)
     (calculateFresnelRadius d1 d2 f) = true.
Proof.
  intros HD Hf H1 H2 Hs. split; [apply calculateMaxFresnelRadius_midpoint|].
  unfold ge. destruct (Req_dec_T D 0) as [H0|H0].
  - rewrite !calculateFresnelRadius_zero by lra. simpl. apply Rleb_true. lra.
  - rewrite !calculateFresnelRadius_fin by lra. simpl. apply Rleb_true.
    apply Rmult_le_compat_l; [lra|].
    apply sqrt_le_1_alt.
    replace (D / 2 + D / 2) with D by lra. rewrite Hs.
    apply Rmult_le_compat_r.
    + left. apply Rinv_0_lt_compat. apply Rmult_lt_0_compat; lra.
    + subst D. generalize (Rle_0_sqr (d1 - d2)). unfold Rsqr. lra.
Qed.

Lemma fresnel_radius_max_at_midpoint_witness :
  ge (calculateFresnelRadius (Fin (4 / 2)) (Fin (4 / 2)) 868)
     (calculateFresnelRadius 1 3 868) = true.
Proof.
  apply (fresnel_radius_max_at_midpoint 4 868 1 3); lra.
Defined.

(** ** Link status *)

Lemma le_not_lt (a b : num) : le a b = true -> lt b a = false.
Proof. destruct a, b; simpl; intro H; try reflexivity; try discriminate; rdec. Qed.

Lemma le_add_not_lt (F m : num) (c : R) :
  0 <= c -> le (F + c)%js m = true -> lt m F = false.
Proof.
  intro Hc. destruct F, m; simpl; intro H; try reflexivity; try discriminate.
  rdec.
Qed.

Lemma le_add_not_lt_add (F m : num) (c c' : R) :
  c' <= c -> le (F + c)%js m = true -> lt m (F + c')%js = false.
Proof.
  intro Hc. destruct F, m; simpl; intro H; try reflexivity; try discriminate.
  rdec.
Qed.

Lemma calculateLinkBudget_returns p :
  is_key bw_keys (bw p) -> exists r, calculateLinkBudget p = Ret r.
Proof.
  intros Hbw. unfold calculateLinkBudget.
  destruct (getSensitivity (sf p) (bw p)) as [v|e] eqn:E; simpl; [eauto|].
  exfalso. unfold getSensitivity in E. destruct Hbw as [z [Hz Hb]].
  rewrite Hb, prop_IZR in E. rewrite <- table_rows in Hz.
  apply get_is_Some in Hz. destruct Hz as [row Hrow]. rewrite Hrow in E.
  destruct (prop row (sf p)); discriminate.
Qed.

(** C5: with a bandwidth of the table the link budget is returned; its
    link margin is txPower + txGain + rxGain - FSPL(distance, frequency) - 2
    minus the sensitivity of (sf, bw), and its status is poor when
    linkMargin < F, marginal when F <= linkMargin < F+10, good when
    F+10 <= linkMargin < F+20 and excellent when linkMargin >= F+20, F being
    the fade margin (10 when absent). *)
Theorem calculateLinkBudget_status (p : Params) :
  is_key bw_keys (bw p) ->
  exists r, calculateLinkBudget p = Ret r /\
    getSensitivity (sf p) (bw p) = Ret (sensitivity r) /\
    pathLoss r = calculateFSPL (distance p) (frequency p) /\
    rxPower r = (txPower p + txGain p + rxGain p - pathLoss r - 2)%js /\
    linkMargin r = (rxPower r - to_num (sensitivity r))%js /\
    let F := default 10 (fadeMargin p) in
    let m := linkMargin r in
    (lt m F = true -> status r = poor) /\
    (le F m = true -> lt m (F + 10)%js = true -> status r = marginal) /\
    (le (F + 10)%js m = true -> lt m (F + 20)%js = true -> status r = good) /\
    (ge m (F + 20)%js = true -> status r = excellent).
Proof.
  intro Hbw. destruct (calculateLinkBudget_returns p Hbw) as [r Hr].
  exists r. split; [exact Hr|].
  unfold calculateLinkBudget in Hr.
  destruct (getSensitivity (sf p) (bw p)) as [v|e]; simpl in Hr;
    [|discriminate].
  injection Hr as <-. cbn zeta.
  cbn [sensitivity pathLoss rxPower linkMargin status].
  do 4 (split; [reflexivity|]).
  set (F := default 10 (fadeMargin p)).
  set (m := (txPower p + txGain p + rxGain p
             - calculateFSPL (distance p) (frequency p) - 2 - to_num v)%js).
  repeat split.
  - now intros ->.
  - intros H1 ->. now rewrite (le_not_lt _ _ H1).
  - intros H1 ->. rewrite (le_add_not_lt _ _ 10) by (lra || exact H1).
    now rewrite (le_not_lt _ _ H1).
  - unfold ge. intro H1.
    rewrite (le_add_not_lt _ _ 20) by (lra || exact H1).
    rewrite (le_add_not_lt_add _ _ 20 10) by (lra || exact H1).
    now rewrite (le_not_lt _ _ H1).
Qed.

(** ** Maximum range *)

Lemma ln_10_pos : 0 < ln 10.
Proof. rewrite <- ln_1. apply ln_increasing; lra. Qed.

Lemma Rpower_pos b y : 0 < Rpower b y.
Proof. unfold Rpower. apply exp_pos. Qed.

Lemma log10_Rpower_10 x : Math_log10 (Fin (Rpower 10 x)) = Fin x.
Proof.
  unfold Math_log10. generalize (Rpower_pos 10 x). intro H.
  rewrite Rltb_false by lra. rewrite Reqb_false by lra.
  unfold Rpower. rewrite ln_exp. f_equal. field.
  generalize ln_10_pos. lra.
Qed.

Lemma log10_pos f : 0 < f -> Math_log10 (Fin f) = Fin (ln f / ln 10).
Proof.
  intro H. unfold Math_log10.
  rewrite Rltb_false by lra. now rewrite Reqb_false by lra.
Qed.


Lemma calculateFSPL_fin d f :
  0 < d -> 0 < f ->
  calculateFSPL (Fin d) (Fin f)
  = Fin (20 * (ln d / ln 10) + 20 * (ln f / ln 10) + 32.45).
Proof.
  intros Hd Hf. unfold calculateFSPL.
  replace (le (Fin d) 0) with false by (symmetry; apply Rleb_false; lra).
  now rewrite !log10_pos by assumption.
Qed.

Lemma linkMargin_at_max_range p tx tg rg f F s :
  txPower p = Fin tx -> txGain p = Fin tg -> rxGain p = Fin rg ->
  frequency p = Fin f -> default 10 (fadeMargin p) = Fin F -> 0 < f ->
  getSensitivity (sf p) (bw p) = Ret (Num (Fin s)) ->
  exists r,
    calculateLinkBudget
      (with_distance (Fin (Rpower 10 (range_exponent tx tg rg s F f))) p)
    = Ret r /\ linkMargin r = Fin F.
Proof.
  intros Htx Htg Hrg Hf HF Hpos Hs. unfold calculateLinkBudget.
  cbn [with_distance txPower txGain rxGain frequency distance sf bw cr
       fadeMargin].
  rewrite Hs, Htx, Htg, Hrg, Hf, HF. cbn [bind to_num].
  eexists. split; [reflexivity|]. cbn [linkMargin].
  unfold calculateFSPL.
  replace (le (Fin (Rpower 10 (range_exponent tx tg rg s F f))) 0)
    with false
    by (symmetry; apply Rleb_false; generalize (Rpower_pos 10 (range_exponent tx tg rg s F f)); lra).
  rewrite log10_Rpower_10, log10_pos by exact Hpos. simpl.
  f_equal. unfold range_exponent. lra.
Qed.

Lemma getSensitivity_7_125 : getSensitivity 7 125 = Ret (Num (Fin (-123))).
Proof. unfold getSensitivity. rewrite prop_IZR. simpl. now rewrite prop_IZR. Qed.

Lemma sensitivity_range sf bw :
  is_key bw_keys bw -> is_key sf_keys sf ->
  exists s, getSensitivity sf bw = Ret (Num (Fin s)) /\ -137 <= s <= -117.
Proof.
  intros [z [Hz ->]] [k [Hk ->]].
  in_cases Hz; in_cases Hk; unfold getSensitivity; rewrite prop_IZR;
    cbn [get sensitivityTable Z.eqb Pos.eqb]; rewrite prop_IZR;
    cbn [get Z.eqb Pos.eqb]; eexists; (split; [reflexivity | lra]).
Qed.

(** *** Powers of ten against the bounds of the range *)

Lemma Rpower_10_nat (n : nat) : Rpower 10 (INR n) = IZR (10 ^ Z.of_nat n).
Proof. rewrite Rpower_pow by lra. apply (pow_IZR 10). Qed.

Lemma IZR_pow_pos (b : Z) (n : nat) : (0 < b)%Z -> 0 < IZR (b ^ Z.of_nat n).
Proof.
  intro H. apply IZR_lt. apply Z.pow_pos_nonneg; [exact H | apply Nat2Z.is_nonneg].
Qed.

Lemma Rpower_10_mono x y : x <= y -> Rpower 10 x <= Rpower 10 y.
Proof. intro H. apply Rle_Rpower; lra. Qed.

Lemma pow10_underflows (x : R) (n : nat) :
  x <= - INR n -> (2 ^ 1075 <= 10 ^ Z.of_nat n)%Z ->
  Rpower 10 x <= Double.underflow_bound.
Proof.
  intros Hx Hz. unfold Double.underflow_bound.
  apply Rle_trans with (Rpower 10 (- INR n)); [now apply Rpower_10_mono|].
  rewrite Rpower_Ropp, Rpower_10_nat.
  apply Rinv_le_contravar; [|now apply IZR_le].
  apply IZR_lt. reflexivity.
Qed.

Lemma pow10_above_underflow (x : R) (n : nat) :
  - INR n <= x -> (10 ^ Z.of_nat n < 2 ^ 1075)%Z ->
  Double.underflow_bound < Rpower 10 x.
Proof.
  intros Hx Hz. unfold Double.underflow_bound.
  apply Rlt_le_trans with (Rpower 10 (- INR n)); [|now apply Rpower_10_mono].
  rewrite Rpower_Ropp, Rpower_10_nat.
  apply Rinv_lt_contravar; [|now apply IZR_lt].
  apply Rmult_lt_0_compat; [apply IZR_pow_pos; lia | apply IZR_lt; reflexivity].
Qed.

Lemma pow10_below_overflow (x : R) (n : nat) :
  x <= INR n -> (10 ^ Z.of_nat n < 2 ^ 1024 - 2 ^ 970)%Z ->
  Rpower 10 x < Double.overflow_bound.
Proof.
  intros Hx Hz. unfold Double.overflow_bound.
  apply Rle_lt_trans with (Rpower 10 (INR n)); [now apply Rpower_10_mono|].
  rewrite Rpower_10_nat. now apply IZR_lt.
Qed.

Lemma pow10_overflows (x : R) (n : nat) :
  INR n <= x -> (2 ^ 1024 - 2 ^ 970 <= 10 ^ Z.of_nat n)%Z ->
  Double.overflow_bound <= Rpower 10 x.
Proof.
  intros Hx Hz. unfold Double.overflow_bound.
  apply Rle_trans with (Rpower 10 (INR n)); [|now apply Rpower_10_mono].
  rewrite Rpower_10_nat. now apply IZR_le.
Qed.

Lemma underflow_below_overflow : Double.underflow_bound < Double.overflow_bound.
Proof.
  apply Rlt_trans with (Rpower 10 0).
  - apply (pow10_above_underflow 0 0); [simpl; lra | reflexivity].
  - apply (pow10_below_overflow 0 0); [simpl; lra | reflexivity].
Qed.

Lemma Double_pow_in_range x :
  Double.underflow_bound < Rpower 10 x -> Rpower 10 x < Double.overflow_bound ->
  Double.Math_pow 10 (Fin x) = Fin (Rpower 10 x).
Proof.
  intros H1 H2. unfold Double.Math_pow, Math_pow.
  rewrite Rleb_false by exact H1. now rewrite Rleb_false by exact H2.
Qed.

Lemma Double_pow_underflow x :
  Rpower 10 x <= Double.underflow_bound -> Double.Math_pow 10 (Fin x) = Fin 0.
Proof.
  intro H. unfold Double.Math_pow, Math_pow. now rewrite Rleb_true by exact H.
Qed.

Lemma Double_pow_overflow x :
  Double.overflow_bound <= Rpower 10 x -> Double.Math_pow 10 (Fin x) = PInf.
Proof.
  intro H. unfold Double.Math_pow, Math_pow.
  rewrite Rleb_false by (generalize underflow_below_overflow; lra).
  now rewrite Rleb_true by exact H.
Qed.

Lemma Double_pow_nonneg x : le 0 (Double.Math_pow 10 (Fin x)) = true.
Proof.
  unfold Double.Math_pow, Math_pow.
  destruct (Rleb _ _); [simpl; apply Rleb_true; lra|].
  destruct (Rleb _ _); [reflexivity|].
  simpl. apply Rleb_true. left. apply Rpower_pos.
Qed.

Lemma Double_calculateMaxRange_fin p tx tg rg f F s :
  txPower p = Fin tx -> txGain p = Fin tg -> rxGain p = Fin rg ->
  frequency p = Fin f -> default 10 (fadeMargin p) = Fin F -> 0 < f ->
  getSensitivity (sf p) (bw p) = Ret (Num (Fin s)) ->
  Double.calculateMaxRange p
  = Ret (Double.Math_pow 10 (Fin (range_exponent tx tg rg s F f))).
Proof.
  intros Htx Htg Hrg Hf HF Hpos Hs. unfold Double.calculateMaxRange.
  rewrite Hs, Htx, Htg, Hrg, Hf, HF. cbn [bind to_num].
  rewrite log10_pos by exact Hpos. cbn [add sub neg mul div].
  rewrite (Reqb_false 20 0) by lra.
  reflexivity.
Qed.

(** Inside the range of a double the two definitions of the maximum range
    return the same distance. *)
Lemma Double_calculateMaxRange_in_range p d :
  calculateMaxRange p = Ret (Fin d) ->
  Double.underflow_bound < d < Double.overflow_bound ->
  Double.calculateMaxRange p = Ret (Fin d).
Proof.
  unfold calculateMaxRange, Double.calculateMaxRange.
  destruct (getSensitivity (sf p) (bw p)) as [v|e]; [|discriminate].
  cbn [bind].
  match goal with |- Ret (Math_pow 10 ?e) = _ -> _ => set (x := e) end.
  intros H [H1 H2].
  assert (H' : Math_pow 10 x = Fin d) by congruence.
  unfold Double.Math_pow. rewrite H'.
  rewrite Rleb_false by exact H1. now rewrite Rleb_false by exact H2.
Qed.

Lemma log10_bounds (f : R) (n : nat) :
  1 <= f <= 10 ^ n -> 0 <= ln f / ln 10 <= INR n.
Proof.
  intros [H1 H2]. pose proof ln_10_pos as H10.
  assert (L0 : 0 <= ln f).
  { rewrite <- ln_1. destruct H1 as [H1 | <-]; [|lra].
    left. apply ln_increasing; lra. }
  assert (L1 : ln f <= INR n * ln 10).
  { rewrite <- ln_pow by lra. destruct H2 as [H2 | ->]; [|lra].
    left. apply ln_increasing; lra. }
  split.
  - apply Rmult_le_pos; [exact L0 | left; now apply Rinv_0_lt_compat].
  - apply Rmult_le_reg_r with (ln 10); [exact H10|].
    replace (ln f / ln 10 * ln 10) with (ln f) by (field; lra). exact L1.
Qed.

Lemma Rabs_bound (x b : R) : Rabs x <= b -> - b <= x <= b.
Proof. unfold Rabs. destruct (Rcase_abs x); lra. Qed.

Lemma log10_bounds_sym (f : R) (n : nat) :
  / 10 ^ n <= f <= 10 ^ n -> - INR n <= ln f / ln 10 <= INR n.
Proof.
  intros [H1 H2]. pose proof ln_10_pos as H10.
  assert (P : 0 < 10 ^ n) by (apply pow_lt; lra).
  assert (Hf : 0 < f).
  { apply Rlt_le_trans with (/ 10 ^ n); [now apply Rinv_0_lt_compat | exact H1]. }
  assert (L0 : - (INR n * ln 10) <= ln f).
  { rewrite <- ln_pow, <- ln_Rinv by lra. destruct H1 as [H1 | <-]; [|lra].
    left. apply ln_increasing; [now apply Rinv_0_lt_compat | exact H1]. }
  assert (L1 : ln f <= INR n * ln 10).
  { rewrite <- ln_pow by lra. destruct H2 as [H2 | ->]; [|lra].
    left. apply ln_increasing; lra. }
  split; apply Rmult_le_reg_r with (ln 10); try exact H10;
    replace (ln f / ln 10 * ln 10) with (ln f) by (field; lra); lra.
Qed.

(** With bounded parameters the exponent stays between -202 and 212. *)
Lemma bounded_exponent tx tg rg s F f :
  Rabs tx <= 1000 -> Rabs tg <= 1000 -> Rabs rg <= 1000 -> Rabs F <= 1000 ->
  / 1000000 <= f <= 1000000 -> -137 <= s <= -117 ->
  -202 <= range_exponent tx tg rg s F f <= 212.
Proof.
  intros Htx Htg Hrg HF Hf Hs.
  apply Rabs_bound in Htx, Htg, Hrg, HF.
  assert (HL : - INR 6 <= ln f / ln 10 <= INR 6).
  { apply log10_bounds_sym. simpl. lra. }
  simpl in HL. unfold range_exponent. lra.
Qed.

Lemma bounded_range p :
  bounded_params p -> in_table p ->
  exists tx tg rg f F s,
    txPower p = Fin tx /\ txGain p = Fin tg /\ rxGain p = Fin rg /\
    frequency p = Fin f /\ default 10 (fadeMargin p) = Fin F /\ 0 < f /\
    getSensitivity (sf p) (bw p) = Ret (Num (Fin s)) /\
    Double.calculateMaxRange p
    = Ret (Fin (Rpower 10 (range_exponent tx tg rg s F f))).
Proof.
  intros [tx [tg [rg [f [F [Htx [Htg [Hrg [Hf [HF [B1 [B2 [B3 [B4 B5]]]]]]]]]]]]]]
         [Hsf Hbw].
  destruct (sensitivity_range _ _ Hbw Hsf) as [s [Hs Bs]].
  exists tx, tg, rg, f, F, s.
  assert (Hpos : 0 < f) by lra.
  repeat (split; [assumption|]).
  rewrite (Double_calculateMaxRange_fin p tx tg rg f F s) by assumption.
  destruct (bounded_exponent tx tg rg s F f B1 B2 B3 B4 B5 Bs) as [X1 X2].
  rewrite Double_pow_in_range; [reflexivity | |].
  - apply (pow10_above_underflow _ 202); [|reflexivity].
    rewrite INR_IZR_INZ. simpl. lra.
  - apply (pow10_below_overflow _ 212); [|reflexivity].
    rewrite INR_IZR_INZ. simpl. lra.
Qed.

(** *** Failing parameters *)

Lemma log10_868 : 0 <= ln 868 / ln 10 <= 3.
Proof.
  assert (H : 0 <= ln 868 / ln 10 <= INR 3)
    by (apply log10_bounds; simpl; lra).
  simpl in H. lra.
Qed.

Lemma max_range_underflows :
  Double.calculateMaxRange (params_tx (-7000)) = Ret (Fin 0).
Proof.
  rewrite (Double_calculateMaxRange_fin _ (-7000) 2 2 868 10 (-123));
    try reflexivity; [| lra | apply getSensitivity_7_125].
  f_equal. apply Double_pow_underflow.
  apply (pow10_underflows _ 345); [|apply Z.leb_le; vm_compute; reflexivity].
  rewrite INR_IZR_INZ. simpl. pose proof log10_868. unfold range_exponent. lra.
Qed.

Lemma max_range_overflows :
  Double.calculateMaxRange (params_tx 7000) = Ret PInf.
Proof.
  rewrite (Double_calculateMaxRange_fin _ 7000 2 2 868 10 (-123));
    try reflexivity; [| lra | apply getSensitivity_7_125].
  f_equal. apply Double_pow_overflow.
  apply (pow10_overflows _ 351); [|apply Z.leb_le; vm_compute; reflexivity].
  rewrite INR_IZR_INZ. simpl. pose proof log10_868. unfold range_exponent. lra.
Qed.

Lemma max_range_frequency_neg :
  Double.calculateMaxRange (params_at (-868)) = Ret NaN.
Proof.
  unfold Double.calculateMaxRange, params_at.
  cbn [txPower txGain rxGain frequency sf bw fadeMargin].
  rewrite getSensitivity_7_125. cbn [bind to_num].
  unfold Math_log10. rewrite Rltb_true by lra. reflexivity.
Qed.

Lemma margin_at_zero_range :
  exists r,
    calculateLinkBudget (with_distance (Fin 0) (params_tx (-7000))) = Ret r /\
    linkMargin r = Fin (-6875).
Proof.
  unfold calculateLinkBudget, params_tx.
  cbn [with_distance txPower txGain rxGain frequency distance sf bw cr
       fadeMargin].
  rewrite getSensitivity_7_125. cbn [bind to_num].
  eexists. split; [reflexivity|]. cbn [linkMargin].
  unfold calculateFSPL. replace (le (Fin 0) 0) with true
    by (symmetry; apply Rleb_true; lra).
  simpl. f_equal. lra.
Qed.

Lemma margin_at_infinite_range :
  exists r,
    calculateLinkBudget (with_distance PInf (params_tx 7000)) = Ret r /\
    linkMargin r = NInf.
Proof.
  unfold calculateLinkBudget, params_tx.
  cbn [with_distance txPower txGain rxGain frequency distance sf bw cr
       fadeMargin].
  rewrite getSensitivity_7_125. cbn [bind to_num].
  eexists. split; [reflexivity|]. cbn [linkMargin].
  unfold calculateFSPL. cbn [le Math_log10].
  rewrite (Rltb_false 868 0) by lra. rewrite (Reqb_false 868 0) by lra.
  cbn [mul]. unfold signed_inf. rewrite (Rltb_true 0 20) by lra.
  reflexivity.
Qed.

(** C1, as stated, fails: with SF7 at 125 kHz, 868 MHz and the transmit
    power -7000 dBm the power 10^x underflows, the range is 0 and the link
    margin there is -6875 dB, not the fade margin 10; with +7000 dBm the
    range is +Infinity and the margin -Infinity. *)
Lemma margin_at_max_range_fails :
  finite_params (params_tx (-7000)) /\ in_table (params_tx (-7000)) /\
  Double.calculateMaxRange (params_tx (-7000)) = Ret (Fin 0) /\
  ~ margin_at_max_range (params_tx (-7000)) /\
  Double.calculateMaxRange (params_tx 7000) = Ret PInf /\
  ~ margin_at_max_range (params_tx 7000).
Proof.
  split; [repeat split; eexists; reflexivity|].
  split; [split; apply is_key_IZR; simpl; auto|].
  split; [apply max_range_underflows|]. split; [|split].
  - intros [d [r [Hd [Hr Ht]]]]. rewrite max_range_underflows in Hd.
    injection Hd as <-. destruct margin_at_zero_range as [r' [Hr' Hm]].
    rewrite Hr in Hr'. injection Hr' as <-. rewrite Hm in Ht.
    revert Ht. unfold within_tolerance. simpl.
    rewrite (Rleb_true _ 0.1) by lra. rewrite Rleb_false by lra. discriminate.
  - apply max_range_overflows.
  - intros [d [r [Hd [Hr Ht]]]]. rewrite max_range_overflows in Hd.
    injection Hd as <-. destruct margin_at_infinite_range as [r' [Hr' Hm]].
    rewrite Hr in Hr'. injection Hr' as <-. rewrite Hm in Ht.
    discriminate.
Qed.

(** C1, amended: for every RFParameters with transmit power, gains and fade
    margin of at most 1000 dB in magnitude, a frequency between 10^-6 and
    10^6 MHz, sf in 7..12 and bw in {125, 250, 500}, the link margin of
    calculateLinkBudget at distance = calculateMaxRange(params) is within
    0.1 dB of the fade margin: there the maximum range is the distance at
    which the margin equals the fade margin. *)
Theorem max_range_link_margin (p : Params) :
  bounded_params p -> in_table p -> margin_at_max_range p.
Proof.
  intros Hb Ht.
  destruct (bounded_range p Hb Ht)
    as [tx [tg [rg [f [F [s [Htx [Htg [Hrg [Hf [HF [Hpos [Hs Hd]]]]]]]]]]]]].
  destruct (linkMargin_at_max_range p tx tg rg f F s Htx Htg Hrg Hf HF Hpos Hs)
    as [r [Hr Hm]].
  eexists. exists r. split; [exact Hd|]. split; [exact Hr|].
  rewrite Hm, HF. unfold within_tolerance. simpl.
  now rewrite !Rleb_true by lra.
Qed.

Lemma bounded_params_tx (tx : R) : Rabs tx <= 1000 -> bounded_params (params_tx tx).
Proof.
  intro H. exists tx, 2, 2, 868, 10.
  repeat (split; [reflexivity|]).
  repeat split; try exact H; try (rewrite Rabs_pos_eq; lra); lra.
Qed.

Lemma in_table_params_tx (tx : R) : in_table (params_tx tx).
Proof. split; apply is_key_IZR; simpl; auto. Qed.

Lemma max_range_link_margin_witness : margin_at_max_range (params_tx 14).
Proof.
  apply (max_range_link_margin (params_tx 14)).
  - apply bounded_params_tx. rewrite Rabs_pos_eq; lra.
  - apply in_table_params_tx.
Defined.

(** C10, as stated, fails: with finite fields, SF7 at 125 kHz, 868 MHz and
    the transmit power -7000 dBm, [calculateMaxRange] returns exactly 0;
    and with a negative frequency it returns NaN. *)
Lemma max_range_not_positive :
  finite_params (params_tx (-7000)) /\ in_table (params_tx (-7000)) /\
  Double.calculateMaxRange (params_tx (-7000)) = Ret (Fin 0) /\
  ~ positive_range (params_tx (-7000)) /\
  Double.calculateMaxRange (params_at (-868)) = Ret NaN /\
  ~ positive_range (params_at (-868)).
Proof.
  split; [repeat split; eexists; reflexivity|].
  split; [apply in_table_params_tx|].
  split; [apply max_range_underflows|]. split; [|split].
  - intros [d [Hd Hpos]]. rewrite max_range_underflows in Hd.
    injection Hd as <-. lra.
  - apply max_range_frequency_neg.
  - intros [d [Hd _]]. rewrite max_range_frequency_neg in Hd. discriminate.
Qed.

(** C10, amended: for every RFParameters with finite numeric fields, a
    positive frequency and sf/bw of the sensitivity table,
    [calculateMaxRange] returns a distance that is never negative and never
    NaN (it can be 0 or +Infinity), whatever the sign of the path-loss
    budget; it is strictly positive and finite when transmit power, gains
    and fade margin are at most 1000 dB in magnitude and the frequency is
    between 10^-6 and 10^6 MHz. *)
Theorem max_range_nonnegative (p : Params) :
  finite_params p -> lt 0 (frequency p) = true -> in_table p ->
  exists d, Double.calculateMaxRange p = Ret d /\
            le 0 d = true /\
            (bounded_params p -> positive_range p).
Proof.
  intros [[tx Htx] [[tg Htg] [[rg Hrg] [[f Hf] [F HF]]]]] Hpos [Hsf Hbw].
  rewrite Hf in Hpos. simpl in Hpos. apply Rltb_iff in Hpos.
  destruct (getSensitivity_defined _ _ Hbw Hsf) as [s Hs].
  eexists. split;
    [exact (Double_calculateMaxRange_fin p tx tg rg f F s
              Htx Htg Hrg Hf HF Hpos Hs)|].
  split; [apply Double_pow_nonneg|].
  intro Hb. destruct (bounded_range p Hb (conj Hsf Hbw))
    as [tx' [tg' [rg' [f' [F' [s' [_ [_ [_ [_ [_ [_ [_ Hd]]]]]]]]]]]]].
  eexists. split; [exact Hd | apply Rpower_pos].
Qed.

Lemma max_range_nonnegative_witness :
  -200 + 2 + 2 - -123 - 2 - 10 < 0 /\
  positive_range (params_tx (-200)).
Proof.
  split; [lra|].
  destruct (max_range_nonnegative (params_tx (-200))) as [d [_ [_ H]]].
  - repeat split; eexists; reflexivity.
  - simpl. apply Rltb_true. lra.
  - apply in_table_params_tx.
  - apply H. apply bounded_params_tx. rewrite Rabs_left; lra.
Defined.

(** ** The link status, exercised *)

Lemma log10_power_of_10 (n : nat) :
  Math_log10 (Fin (10 ^ n)) = Fin (INR n).
Proof.
  assert (H : 0 < 10 ^ n) by (apply pow_lt; lra).
  rewrite log10_pos by exact H. f_equal.
  rewrite <- Rpower_pow by lra. unfold Rpower. rewrite ln_exp.
  field. generalize ln_10_pos. lra.
Qed.

Lemma calculateFSPL_powers (a b : nat) :
  calculateFSPL (Fin (10 ^ a)) (Fin (10 ^ b))
  = Fin (20 * INR a + 20 * INR b + 32.45).
Proof.
  unfold calculateFSPL.
  replace (le (Fin (10 ^ a)) 0) with false
    by (symmetry; apply Rleb_false; apply pow_lt; lra).
  now rewrite !log10_power_of_10.
Qed.

(** The margin of a 14 dBm or 4 dBm link at 1000 MHz, SF7, 125 kHz, over
    1, 10 and 100 km. *)
Lemma grid_margin (tx : R) (a : nat) r :
  calculateLinkBudget
    (mkParams tx 2 2 (Fin (10 ^ 3)) (Fin (10 ^ a)) 7 125 5 None) = Ret r ->
  getSensitivity 7 125 = Ret (sensitivity r) ->
  pathLoss r = calculateFSPL (Fin (10 ^ a)) (Fin (10 ^ 3)) ->
  rxPower r = (Fin tx + 2 + 2 - pathLoss r - 2)%js ->
  linkMargin r = (rxPower r - to_num (sensitivity r))%js ->
  linkMargin r = Fin (tx + 125 - (20 * INR a + 92.45)).
Proof.
  intros _ Hs Hpl Hrx Hm. rewrite getSensitivity_7_125 in Hs.
  injection Hs as Hs. rewrite Hm, Hrx, Hpl, <- Hs, calculateFSPL_powers.
  simpl. f_equal. lra.
Qed.

Lemma calculateLinkBudget_status_witness :
  (exists r, calculateLinkBudget
               (mkParams 14 2 2 (Fin (10 ^ 3)) (Fin (10 ^ 2)) 7 125 5 None)
             = Ret r /\ status r = poor) /\
  (exists r, calculateLinkBudget
               (mkParams 4 2 2 (Fin (10 ^ 3)) (Fin (10 ^ 1)) 7 125 5 None)
             = Ret r /\ status r = marginal) /\
  (exists r, calculateLinkBudget
               (mkParams 14 2 2 (Fin (10 ^ 3)) (Fin (10 ^ 1)) 7 125 5 None)
             = Ret r /\ status r = good) /\
  (exists r, calculateLinkBudget
               (mkParams 14 2 2 (Fin (10 ^ 3)) (Fin (10 ^ 0)) 7 125 5 None)
             = Ret r /\ status r = excellent).
Proof.
  assert (K : is_key bw_keys (Fin 125)) by (apply is_key_IZR; simpl; auto).
  repeat split.
  - destruct (calculateLinkBudget_status
                (mkParams 14 2 2 (Fin (10 ^ 3)) (Fin (10 ^ 2)) 7 125 5 None) K)
      as [r [Hr [Hs [Hpl [Hrx [Hm [H1 [H2 [H3 H4]]]]]]]]].
    exists r. split; [exact Hr|]. apply H1.
    rewrite (grid_margin 14 2 r Hr Hs Hpl Hrx Hm). simpl.
    apply Rltb_true. lra.
  - destruct (calculateLinkBudget_status
                (mkParams 4 2 2 (Fin (10 ^ 3)) (Fin (10 ^ 1)) 7 125 5 None) K)
      as [r [Hr [Hs [Hpl [Hrx [Hm [H1 [H2 [H3 H4]]]]]]]]].
    exists r. split; [exact Hr|].
    apply H2; rewrite (grid_margin 4 1 r Hr Hs Hpl Hrx Hm); simpl;
      [apply Rleb_true | apply Rltb_true]; lra.
  - destruct (calculateLinkBudget_status
                (mkParams 14 2 2 (Fin (10 ^ 3)) (Fin (10 ^ 1)) 7 125 5 None) K)
      as [r [Hr [Hs [Hpl [Hrx [Hm [H1 [H2 [H3 H4]]]]]]]]].
    exists r. split; [exact Hr|].
    apply H3; rewrite (grid_margin 14 1 r Hr Hs Hpl Hrx Hm); simpl;
      [apply Rleb_true | apply Rltb_true]; lra.
  - destruct (calculateLinkBudget_status
                (mkParams 14 2 2 (Fin (10 ^ 3)) (Fin (10 ^ 0)) 7 125 5 None) K)
      as [r [Hr [Hs [Hpl [Hrx [Hm [H1 [H2 [H3 H4]]]]]]]]].
    exists r. split; [exact Hr|].
    apply H4. rewrite (grid_margin 14 0 r Hr Hs Hpl Hrx Hm). simpl.
    apply Rleb_true. lra.
Defined.

(** ** Line-of-sight analysis *)

Section ScanFacts.

Variables (totalDistance startElevation endElevation frequency : num).
Variable buildings : list Building.

Local Abbreviation step :=
  (scan_step totalDistance startElevation endElevation frequency buildings).
Local Abbreviation blocked :=
  (obstructed totalDistance startElevation endElevation frequency buildings).
Local Abbreviation record :=
  (obstruction_at totalDistance startElevation endElevation frequency
     buildings).
Local Abbreviation percent :=
  (fresnelClearancePercent totalDistance startElevation endElevation
     frequency buildings).

(** Loop invariant: the scan appends one obstruction per blocked sample, in
    path order, and folds [Math.min] over the clearance percentages. *)
Lemma scan_fold (samples : list Sample) (obs : list Obstruction) (m : num) :
  fold_left step samples (obs, m)
  = (obs ++ map record (filter blocked samples),
     fold_left Math_min (map percent samples) m).
Proof.
  revert obs m. induction samples as [|pt samples IH]; intros obs m.
  - simpl. now rewrite app_nil_r.
  - cbn [fold_left map filter].
    assert (E : step (obs, m) pt
                = if blocked pt
                  then (obs ++ [record pt], Math_min m (percent pt))
                  else (obs, Math_min m (percent pt))) by reflexivity.
    rewrite E. destruct (blocked pt); rewrite IH.
    + now rewrite <- app_assoc.
    + reflexivity.
Qed.

Lemma filter_nil_iff (samples : list Sample) :
  filter blocked samples = [] <->
  (forall pt, In pt samples -> blocked pt = false).
Proof.
  induction samples as [|pt samples IH]; simpl.
  - split; [intros _ ? [] | reflexivity].
  - destruct (blocked pt) eqn:E; split.
    + discriminate.
    + intro H. specialize (H pt (or_introl eq_refl)). congruence.
    + intros H q [<-|Hq]; [exact E | now apply IH].
    + intro H. apply IH. intros q Hq. apply H. now right.
Qed.

End ScanFacts.

Lemma length_zero_iff {A} (l : list A) : Nat.eqb (length l) 0 = true <-> l = [].
Proof. destruct l; simpl; split; intro; congruence. Qed.

(** The endpoints of a profile with at least two samples. *)
Lemma profile_two (profile : list Sample) :
  (2 <= length profile)%nat ->
  exists first second rest, profile = first :: second :: rest.
Proof.
  destruct profile as [|a [|b l]]; simpl; intro H; try lia. eauto.
Qed.

Lemma analyzeLineOfSight_scan ep h1 h2 fr f bs first second rest :
  profile ep = first :: second :: rest ->
  let total := totalDistance ep in
  let startE := (s_elevation first + h1)%js in
  let endE := (s_elevation (last rest second) + h2)%js in
  let obs :=
    map (obstruction_at total startE endE f bs)
      (filter (obstructed total startE endE f bs) (interior (profile ep))) in
  let fc :=
    fold_left Math_min
      (map (fresnelClearancePercent total startE endE f bs)
         (interior (profile ep))) PInf in
  analyzeLineOfSight ep h1 h2 fr f bs
  = mkLoS (Nat.eqb (length obs) 0) obs fc
      (Some (classify (Nat.eqb (length obs) 0) fc)) (Some total).
Proof.
  intros Hp total startE endE obs fc. unfold analyzeLineOfSight.
  rewrite Hp. fold total startE endE. rewrite <- Hp.
  rewrite scan_fold. simpl app. fold obs fc. reflexivity.
Qed.

(** C6: on a profile with fewer than 2 samples the analysis returns the
    boundary result: no line of sight, no obstructions, clearance 0 (and
    nothing else: the result carries no quality). *)
Theorem analyzeLineOfSight_degenerate
    (ep : ElevationProfile) (h1 h2 fr f : num) (bs : list Building) :
  (length (profile ep) < 2)%nat ->
  let r := analyzeLineOfSight ep h1 h2 fr f bs in
  r = mkLoS false [] 0 None None /\
  hasLoS r = false /\ obstructions r = [] /\ fresnelClearance r = Fin 0.
Proof.
  intro H. unfold analyzeLineOfSight.
  destruct (profile ep) as [|a [|b l]]; simpl in H; try lia; auto.
Qed.

Lemma analyzeLineOfSight_degenerate_witness :
  analyzeLineOfSight (mkProfile [mkSample 45 7 300 0] 0) 10 10 0 868 []
  = mkLoS false [] 0 None None.
Proof.
  apply (analyzeLineOfSight_degenerate
           (mkProfile [mkSample 45 7 300 0] 0) 10 10 0 868 []).
  simpl. lia.
Defined.

(** C9: on a profile of exactly 2 samples the scan visits nothing: line of
    sight, no obstructions, clearance +Infinity and quality excellent,
    whatever the elevations, heights, frequency and buildings. *)
Theorem analyzeLineOfSight_two_samples
    (ep : ElevationProfile) (h1 h2 fr f : num) (bs : list Building) :
  length (profile ep) = 2%nat ->
  interior (profile ep) = [] /\
  analyzeLineOfSight ep h1 h2 fr f bs
  = mkLoS true [] PInf (Some q_excellent) (Some (totalDistance ep)).
Proof.
  intro H. unfold analyzeLineOfSight.
  destruct (profile ep) as [|a [|b [|c l]]]; simpl in H; try lia.
  split; reflexivity.
Qed.

Lemma analyzeLineOfSight_two_samples_witness :
  analyzeLineOfSight
    (mkProfile [mkSample 45 7 300 0; mkSample 45 7.1 9000 8] 8)
    10 10 0 868 [mkBuilding 45 7.05 30]
  = mkLoS true [] PInf (Some q_excellent) (Some (Fin 8)).
Proof.
  apply (analyzeLineOfSight_two_samples
           (mkProfile [mkSample 45 7 300 0; mkSample 45 7.1 9000 8] 8)
           10 10 0 868 [mkBuilding 45 7.05 30]).
  reflexivity.
Defined.

(** C4, as stated, fails on the empty profile: no obstruction is recorded,
    yet the result has no line of sight, and it has no quality at all. *)
Lemma verdict_rule_fails_on_empty_profile :
  let r := analyzeLineOfSight (mkProfile [] 0) 10 10 0 868 [] in
  hasLoS r = false /\ obstructions r = [] /\ quality r = None /\
  ~ verdict_rule r.
Proof.
  simpl. repeat split.
  intros [[_ H] _]. specialize (H eq_refl). discriminate.
Qed.

(** C4, amended: on a profile with at least 2 samples, hasLineOfSight holds
    exactly when no obstruction was recorded, the recorded obstructions are
    the interior samples whose obstruction height exceeds the required
    height, in path order, the clearance is the minimum of the interior
    percentages (starting from +Infinity), and quality is blocked without
    line of sight, else poor below 20, marginal below 60, good below 100,
    excellent otherwise. *)
Theorem analyzeLineOfSight_verdict
    (ep : ElevationProfile) (h1 h2 fr f : num) (bs : list Building) :
  (2 <= length (profile ep))%nat ->
  let r := analyzeLineOfSight ep h1 h2 fr f bs in
  verdict_rule r /\
  exists first second rest,
    profile ep = first :: second :: rest /\
    let total := totalDistance ep in
    let startE := (s_elevation first + h1)%js in
    let endE := (s_elevation (last rest second) + h2)%js in
    obstructions r
    = map (obstruction_at total startE endE f bs)
        (filter (obstructed total startE endE f bs)
           (interior (profile ep))) /\
    (hasLoS r = true <->
     forall pt, In pt (interior (profile ep)) ->
                obstructed total startE endE f bs pt = false) /\
    fresnelClearance r
    = fold_left Math_min
        (map (fresnelClearancePercent total startE endE f bs)
           (interior (profile ep))) PInf.
Proof.
  intros H r. destruct (profile_two _ H) as [first [second [rest Hp]]].
  unfold r. rewrite (analyzeLineOfSight_scan ep h1 h2 fr f bs _ _ _ Hp).
  cbn zeta. split.
  - split; [|reflexivity]. cbn [hasLoS obstructions]. apply length_zero_iff.
  - exists first, second, rest. split; [exact Hp|]. cbn zeta.
    cbn [hasLoS obstructions fresnelClearance].
    split; [reflexivity|]. split; [|reflexivity].
    rewrite length_zero_iff. rewrite <- filter_nil_iff.
    split; [apply map_eq_nil | now intros ->].
Qed.

Lemma analyzeLineOfSight_verdict_witness :
  verdict_rule
    (analyzeLineOfSight
       (mkProfile [mkSample 45 7 0 0; mkSample 45 7.01 500 1;
                   mkSample 45 7.02 0 2] 2)
       10 10 0 868 []).
Proof.
  apply (analyzeLineOfSight_verdict
           (mkProfile [mkSample 45 7 0 0; mkSample 45 7.01 500 1;
                       mkSample 45 7.02 0 2] 2)
           10 10 0 868 []).
  simpl. lia.
Defined.

(** ** The obstruction scenario *)

Lemma hill_required_height :
  exists h,
    requiredHeight 2 (0 + 10)%js (0 + 10)%js 868 (mkSample 45 7.01 500 1)
    = Fin h /\ h < 500.
Proof.
  unfold requiredHeight, adjustedLineHeight, localFresnelRadius,
    calculateEarthBulge, d2_at, d1_at, earthRadius.
  cbn [s_distance sub neg add].
  rewrite calculateFresnelRadius_fin by lra.
  simpl. rewrite !(Reqb_false 2 0) by lra. simpl.
  rewrite (Reqb_false (2 * 6371) 0) by lra. simpl.
  eexists. split; [reflexivity|].
  assert (Hs : sqrt (1 * (2 + - (1)) / (868 * (1 + (2 + - (1))))) <= 1).
  { apply Rle_trans with (sqrt 1); [|rewrite sqrt_1; lra].
    apply sqrt_le_1_alt.
    replace (1 * (2 + - (1)) / (868 * (1 + (2 + - (1))))) with (/ 1736)
      by (field; lra).
    lra. }
  lra.
Qed.

Example hill_is_blocked :
  let r := analyzeLineOfSight hill_profile 10 10 0 868 [] in
  hasLoS r = false /\ quality r = Some q_blocked /\
  exists o, obstructions r = [o] /\ o_distance o = Fin 1.
Proof.
  assert (Hb : obstructed 2 (0 + 10)%js (0 + 10)%js 868 []
                 (mkSample 45 7.01 500 1) = true).
  { unfold obstructed, gt. destruct hill_required_height as [h [-> Hh]].
    unfold obstructionHeight. simpl. now apply Rltb_true. }
  cbn zeta.
  rewrite (analyzeLineOfSight_scan hill_profile 10 10 0 868 []
             (mkSample 45 7 0 0) (mkSample 45 7.01 500 1)
             [mkSample 45 7.02 0 2] eq_refl).
  cbn zeta.
  change (interior (profile hill_profile)) with [mkSample 45 7.01 500 1].
  cbn [filter map totalDistance hill_profile s_elevation last].
  rewrite Hb. cbn [length Nat.eqb hasLoS quality obstructions classify negb].
  repeat split. eexists. split; reflexivity.
Qed.

(** ** NaN in sums and differences *)

Lemma add_NaN_r (a : num) : (a + NaN)%js = NaN.
Proof. now destruct a. Qed.

Lemma sub_NaN_r (a : num) : (a - NaN)%js = NaN.
Proof. now destruct a. Qed.

Lemma sub_NaN_l (a : num) : (NaN - a)%js = NaN.
Proof. now destruct a. Qed.

(** ** Further properties of the calculator *)

Lemma num_add_comm (a b : num) : (a + b)%js = (b + a)%js.
Proof. destruct a, b; simpl; try reflexivity. f_equal. ring. Qed.

Lemma num_mul_comm (a b : num) : (a * b)%js = (b * a)%js.
Proof. destruct a, b; simpl; try reflexivity. f_equal. ring. Qed.

Lemma getSensitivity_at (k z : Z) :
  getSensitivity (Fin (IZR k)) (Fin (IZR z))
  = match get z sensitivityTable with
    | None => Throw TypeError
    | Some row =>
        match get k row with
        | None => Ret Undefined
        | Some s => Ret (Num (Fin s))
        end
    end.
Proof.
  unfold getSensitivity. rewrite prop_IZR.
  destruct (get z sensitivityTable); [|reflexivity]. now rewrite prop_IZR.
Qed.


(** X1: over the table, a higher spreading factor and a narrower bandwidth
    never worsen the sensitivity: for table keys sf <= sf' and bw <= bw',
    sensitivity(sf', bw) <= sensitivity(sf, bw'), both being numbers. *)
Theorem sensitivity_monotone (sf sf' bw bw' : Z) :
  In sf sf_keys -> In sf' sf_keys -> In bw bw_keys -> In bw' bw_keys ->
  (sf <= sf')%Z -> (bw <= bw')%Z ->
  exists s s',
    getSensitivity (Fin (IZR sf)) (Fin (IZR bw')) = Ret (Num (Fin s)) /\
    getSensitivity (Fin (IZR sf')) (Fin (IZR bw)) = Ret (Num (Fin s')) /\
    s' <= s.
Proof.
  intros H1 H2 H3 H4 Hsf Hbw.
  in_cases H1; in_cases H2; try lia; in_cases H3; in_cases H4; try lia;
    rewrite !getSensitivity_at; cbn [get sensitivityTable Z.eqb Pos.eqb];
    do 2 eexists; (split; [reflexivity|]); (split; [reflexivity|]); lra.
Qed.

Lemma sensitivity_monotone_witness :
  exists s s',
    getSensitivity 7 500 = Ret (Num (Fin s)) /\
    getSensitivity 12 125 = Ret (Num (Fin s')) /\ s' <= s.
Proof.
  apply (sensitivity_monotone 7 12 125 500); simpl; auto 10; lia.
Defined.

(** ** Data rate *)

Lemma data_rate_value_le (sf sf' bw bw' cr cr' : R) :
  0 < cr -> 0 < cr' ->
  bw * 1000 / Rpower 2 sf * sf * (4 / cr)
  <= bw' * 1000 / Rpower 2 sf' * sf' * (4 / cr') ->
  le (calculateDataRate sf bw cr) (calculateDataRate sf' bw' cr') = true.
Proof.
  intros Hc Hc' H. rewrite !calculateDataRate_fin by lra. simpl.
  apply Rleb_true, IZR_le, Zfloor_le. lra.
Qed.

(** X2: the data rate never decreases when the bandwidth grows or the
    coding-rate denominator shrinks: for sf >= 0, 0 <= bw <= bw' and
    0 < cr' <= cr, dataRate(sf, bw, cr) <= dataRate(sf, bw', cr'). *)
Theorem calculateDataRate_monotone_bw_cr (sf bw bw' cr cr' : R) :
  0 <= sf -> 0 <= bw <= bw' -> 0 < cr' <= cr ->
  le (calculateDataRate sf bw cr) (calculateDataRate sf bw' cr') = true.
Proof.
  intros Hsf Hbw Hcr. apply data_rate_value_le; try lra.
  pose proof (Rpower_pos 2 sf) as HP.
  assert (H1 : 0 <= bw * 1000 / Rpower 2 sf * sf).
  { apply Rmult_le_pos; [|lra].
    apply Rmult_le_pos; [lra | left; now apply Rinv_0_lt_compat]. }
  assert (H2 : bw * 1000 / Rpower 2 sf * sf <= bw' * 1000 / Rpower 2 sf * sf).
  { apply Rmult_le_compat_r; [lra|].
    apply Rmult_le_compat_r; [left; now apply Rinv_0_lt_compat | lra]. }
  assert (H3 : 0 < 4 / cr <= 4 / cr').
  { split.
    - apply Rmult_lt_0_compat; [lra | apply Rinv_0_lt_compat; lra].
    - apply Rmult_le_compat_l; [lra|]. apply Rinv_le_contravar; lra. }
  apply Rle_trans with (bw * 1000 / Rpower 2 sf * sf * (4 / cr')).
  - apply Rmult_le_compat_l; lra.
  - apply Rmult_le_compat_r; lra.
Qed.

Lemma calculateDataRate_monotone_bw_cr_witness :
  le (calculateDataRate 7 125 8) (calculateDataRate 7 250 5) = true.
Proof.
  apply (calculateDataRate_monotone_bw_cr 7 125 250 8 5); lra.
Defined.

Lemma Rpower_2_succ x : Rpower 2 (x + 1) = Rpower 2 x * 2.
Proof. rewrite Rpower_plus, Rpower_1 by lra. reflexivity. Qed.

(** X3: one more step of spreading factor never raises the data rate: for
    sf >= 1, bw >= 0 and cr > 0, dataRate(sf + 1, bw, cr) <=
    dataRate(sf, bw, cr). *)
Theorem calculateDataRate_monotone_sf (sf bw cr : R) :
  1 <= sf -> 0 <= bw -> 0 < cr ->
  le (calculateDataRate (Fin (sf + 1)) bw cr) (calculateDataRate sf bw cr)
  = true.
Proof.
  intros Hsf Hbw Hcr. apply data_rate_value_le; try lra.
  rewrite Rpower_2_succ. pose proof (Rpower_pos 2 sf) as HP.
  assert (Hq : 0 < 4 / cr)
    by (apply Rmult_lt_0_compat; [lra | apply Rinv_0_lt_compat; lra]).
  apply Rmult_le_compat_r; [lra|].
  replace (bw * 1000 / (Rpower 2 sf * 2) * (sf + 1))
    with (bw * 1000 / Rpower 2 sf * ((sf + 1) / 2)) by (field; lra).
  apply Rmult_le_compat_l; [|lra].
  apply Rmult_le_pos; [lra | left; now apply Rinv_0_lt_compat].
Qed.

Lemma calculateDataRate_monotone_sf_witness :
  le (calculateDataRate (Fin (7 + 1)) 125 5) (calculateDataRate 7 125 5)
  = true.
Proof.
  apply (calculateDataRate_monotone_sf 7 125 5); lra.
Defined.

(** ** Time on air *)





(** ** Path loss *)

Lemma log10_le (x y : R) : 0 < x <= y -> ln x / ln 10 <= ln y / ln 10.
Proof.
  intros [H0 H]. pose proof ln_10_pos as H10.
  apply Rmult_le_compat_r; [left; now apply Rinv_0_lt_compat|].
  destruct H as [H|<-]; [left; now apply ln_increasing | lra].
Qed.

(** X5: for f > 0 the path loss is 0 at any distance d <= 0; at distances
    0 < d <= d' it does not decrease, FSPL(d, f) <= FSPL(d', f), and at a
    distance d > 0 it does not decrease with the frequency either,
    FSPL(d, f) <= FSPL(d, f') for f <= f'. *)
Theorem calculateFSPL_monotone (d d' f f' : R) :
  0 < d <= d' -> 0 < f <= f' ->
  calculateFSPL (Fin (- d)) f = Fin 0 /\
  calculateFSPL (Fin 0) f = Fin 0 /\
  le (calculateFSPL d f) (calculateFSPL d' f) = true /\
  le (calculateFSPL d f) (calculateFSPL d f') = true.
Proof.
  intros Hd Hf. repeat split.
  - unfold calculateFSPL. simpl. now rewrite Rleb_true by lra.
  - unfold calculateFSPL. simpl. now rewrite Rleb_true by lra.
  - rewrite !calculateFSPL_fin by lra. simpl. apply Rleb_true.
    pose proof (log10_le d d' Hd). lra.
  - rewrite !calculateFSPL_fin by lra. simpl. apply Rleb_true.
    pose proof (log10_le f f' Hf). lra.
Qed.

Lemma calculateFSPL_monotone_witness :
  calculateFSPL (Fin (- 1)) 433 = Fin 0 /\
  calculateFSPL (Fin 0) 433 = Fin 0 /\
  le (calculateFSPL 1 433) (calculateFSPL 10 433) = true /\
  le (calculateFSPL 1 433) (calculateFSPL 1 868) = true.
Proof.
  apply (calculateFSPL_monotone 1 10 433 868); lra.
Defined.

(** ** Fresnel radius *)

(** X6: the Fresnel radius is symmetric in the two distances, for all
    numbers: calculateFresnelRadius(d1, d2, f) = calculateFresnelRadius(d2,
    d1, f). *)
Theorem calculateFresnelRadius_symmetric (d1 d2 f : num) :
  calculateFresnelRadius d1 d2 f = calculateFresnelRadius d2 d1 f.
Proof.
  unfold calculateFresnelRadius.
  now rewrite (num_add_comm d1 d2), (num_mul_comm d1 d2).
Qed.

(** X7: for d1, d2 >= 0 and f > 0 the Fresnel radius is a finite number
    r >= 0, and it is 0 at either end of the path (d1 = 0 or d2 = 0). *)
Theorem calculateFresnelRadius_nonneg (d1 d2 f : R) :
  0 <= d1 -> 0 <= d2 -> 0 < f ->
  exists r, calculateFresnelRadius d1 d2 f = Fin r /\ 0 <= r /\
            (d1 = 0 \/ d2 = 0 -> r = 0).
Proof.
  intros H1 H2 Hf. destruct (Req_dec_T (d1 + d2) 0) as [H0|H0].
  - rewrite calculateFresnelRadius_zero by exact H0.
    exists 0. repeat split; lra.
  - rewrite calculateFresnelRadius_fin by lra.
    eexists. split; [reflexivity|]. split.
    + apply Rmult_le_pos; [lra | apply sqrt_pos].
    + intros Hz. replace (d1 * d2) with 0 by (destruct Hz; subst; ring).
      unfold Rdiv. rewrite Rmult_0_l, sqrt_0. ring.
Qed.

Lemma calculateFresnelRadius_nonneg_witness :
  exists r, calculateFresnelRadius 0 5 868 = Fin r /\ 0 <= r /\
            (0 = 0 \/ 5 = 0 -> r = 0).
Proof.
  apply (calculateFresnelRadius_nonneg 0 5 868); lra.
Defined.

(** ** Maximum range and link status *)

Lemma lt_Rpower_10_iff x d : 0 < d -> (Rpower 10 x < d <-> x < ln d / ln 10).
Proof.
  intro Hd. pose proof ln_10_pos as H10. unfold Rpower. split; intro H.
  - apply ln_increasing in H; [|apply exp_pos]. rewrite ln_exp in H.
    apply Rmult_lt_reg_r with (ln 10); [exact H10|].
    replace (ln d / ln 10 * ln 10) with (ln d) by (field; lra). exact H.
  - apply Rlt_le_trans with (exp (ln d)); [|rewrite exp_ln; lra].
    apply exp_increasing.
    apply Rmult_lt_compat_r with (r := ln 10) in H; [|exact H10].
    replace (ln d / ln 10 * ln 10) with (ln d) in H by (field; lra). exact H.
Qed.

(** Rounding to the range of a double keeps the order of the powers. *)
Lemma Double_pow_mono x y :
  x <= y ->
  le (Double.Math_pow 10 (Fin x)) (Double.Math_pow 10 (Fin y)) = true.
Proof.
  intro H. pose proof (Rpower_10_mono x y H) as HP.
  pose proof underflow_below_overflow as HB.
  pose proof (Rpower_pos 10 y) as Hy.
  unfold Double.Math_pow, Math_pow, Rleb.
  destruct (Rle_dec (Rpower 10 x) Double.underflow_bound);
    destruct (Rle_dec (Rpower 10 y) Double.underflow_bound);
    destruct (Rle_dec Double.overflow_bound (Rpower 10 x));
    destruct (Rle_dec Double.overflow_bound (Rpower 10 y));
    try reflexivity; try lra; simpl; apply Rleb_true; lra.
Qed.

(** X8: with finite parameters, a positive frequency and sf/bw of the
    table, more transmit power never shortens the maximum range and a
    higher frequency never lengthens it; this holds as well where the range
    is 0 or +Infinity. *)
Theorem calculateMaxRange_monotone_power (p : Params) (tx tx' f f' : R) :
  finite_params p -> in_table p ->
  txPower p = Fin tx -> frequency p = Fin f ->
  tx <= tx' -> 0 < f <= f' ->
  exists d d_tx d_f,
    Double.calculateMaxRange p = Ret d /\
    Double.calculateMaxRange
      (mkParams tx' (txGain p) (rxGain p) (frequency p)
         (distance p) (sf p) (bw p) (cr p) (fadeMargin p))
    = Ret d_tx /\
    Double.calculateMaxRange
      (mkParams (txPower p) (txGain p) (rxGain p) f'
         (distance p) (sf p) (bw p) (cr p) (fadeMargin p))
    = Ret d_f /\
    le d d_tx = true /\ le d_f d = true.
Proof.
  intros [_ [[tg Htg] [[rg Hrg] [_ [F HF]]]]] [Hsf Hbw] Htx Hf Ht Hfr.
  destruct (getSensitivity_defined _ _ Hbw Hsf) as [s Hs].
  do 3 eexists.
  split; [apply (Double_calculateMaxRange_fin p tx tg rg f F s);
          assumption || lra|].
  split; [apply (Double_calculateMaxRange_fin _ tx' tg rg f F s);
          assumption || reflexivity || lra|].
  split; [apply (Double_calculateMaxRange_fin _ tx tg rg f' F s);
          assumption || reflexivity || lra|].
  split; apply Double_pow_mono; unfold range_exponent.
  - lra.
  - pose proof (log10_le f f' Hfr). lra.
Qed.

Lemma calculateMaxRange_monotone_power_witness :
  exists d d_tx d_f,
    Double.calculateMaxRange (params_tx 14) = Ret d /\
    Double.calculateMaxRange (mkParams 20 2 2 868 1 7 125 5 None) = Ret d_tx /\
    Double.calculateMaxRange (mkParams 14 2 2 915 1 7 125 5 None) = Ret d_f /\
    le d d_tx = true /\ le d_f d = true.
Proof.
  apply (calculateMaxRange_monotone_power (params_tx 14) 14 20 868 915).
  - repeat split; eexists; reflexivity.
  - apply in_table_params_tx.
  - reflexivity.
  - reflexivity.
  - lra.
  - lra.
Defined.



Lemma max_range_868 :
  exists m, Double.calculateMaxRange (params_tx 14) = Ret (Fin m) /\
            10 <= m <= 100000.
Proof.
  pose proof log10_868 as HL.
  assert (He : 1 <= range_exponent 14 2 2 (-123) 10 868 <= 5)
    by (unfold range_exponent; lra).
  rewrite (Double_calculateMaxRange_fin _ 14 2 2 868 10 (-123));
    try reflexivity; [| lra | apply getSensitivity_7_125].
  rewrite Double_pow_in_range.
  - eexists. split; [reflexivity|]. split.
    + rewrite <- (Rpower_1 10) at 1 by lra. apply Rpower_10_mono. lra.
    + replace 100000 with (Rpower 10 (INR 5))
        by (rewrite Rpower_10_nat; simpl; lra).
      apply Rpower_10_mono. simpl. lra.
  - apply (pow10_above_underflow _ 0); [simpl; lra | reflexivity].
  - apply (pow10_below_overflow _ 5); [simpl; lra | reflexivity].
Qed.

(** X10: with transmit power, gains and fade margin of at most 1000 dB in
    magnitude, a frequency between 10^-6 and 10^6 MHz and sf/bw of the table,
    the maximum range m is where the link turns poor: at a distance of at
    least 2 m the status is poor, and at a positive distance of at most
    m / 2 it is not. *)
Theorem status_around_max_range (p : Params) (d : R) :
  bounded_params p -> in_table p -> 0 < d ->
  exists m r,
    Double.calculateMaxRange p = Ret (Fin m) /\ 0 < m /\
    calculateLinkBudget (with_distance (Fin d) p) = Ret r /\
    (2 * m <= d -> status r = poor) /\
    (d <= m / 2 -> status r <> poor).
Proof.
  intros Hb Ht Hd.
  destruct (bounded_range p Hb Ht)
    as [tx [tg [rg [f [F [s [Htx [Htg [Hrg [Hf [HF [Hpos [Hs Hm]]]]]]]]]]]]].
  exists (Rpower 10 (range_exponent tx tg rg s F f)).
  pose proof (Rpower_pos 10 (range_exponent tx tg rg s F f)) as Hmp.
  unfold calculateLinkBudget.
  cbn [with_distance txPower txGain rxGain frequency distance sf bw cr
       fadeMargin].
  rewrite Hs, Htx, Htg, Hrg, Hf, HF. cbn [bind to_num].
  eexists. split; [exact Hm|]. split; [exact Hmp|].
  split; [reflexivity|]. cbn [status].
  rewrite calculateFSPL_fin by assumption.
  cbn [add sub neg lt].
  pose proof (lt_Rpower_10_iff (range_exponent tx tg rg s F f) d Hd) as Hiff.
  unfold range_exponent in Hiff.
  set (m := tx + tg + rg + - (20 * (ln d / ln 10) + 20 * (ln f / ln 10) + 32.45)
            + - (2) + - s).
  unfold Rltb. split.
  - intro H2. destruct (Rlt_dec m F) as [H|H]; [reflexivity|].
    exfalso. apply H. unfold m.
    assert (K : Rpower 10 (range_exponent tx tg rg s F f) < d) by lra.
    apply Hiff in K. lra.
  - intro H2. destruct (Rlt_dec m F) as [H|H].
    + exfalso.
      assert (K : Rpower 10 (range_exponent tx tg rg s F f) < d)
        by (apply Hiff; unfold m in H; lra).
      lra.
    + destruct (Rlt_dec m (F + 10)); [discriminate|].
      destruct (Rlt_dec m (F + 20)); discriminate.
Qed.

Lemma status_around_max_range_witness :
  exists r r',
    calculateLinkBudget (with_distance (Fin 1000000) (params_tx 14)) = Ret r /\
    status r = poor /\
    calculateLinkBudget (with_distance (Fin 1) (params_tx 14)) = Ret r' /\
    status r' <> poor.
Proof.
  assert (Hb : bounded_params (params_tx 14))
    by (apply bounded_params_tx; rewrite Rabs_pos_eq; lra).
  destruct max_range_868 as [m0 [H0 Hm0]].
  destruct (status_around_max_range (params_tx 14) 1000000 Hb
              (in_table_params_tx 14))
    as [m [r [Hm [_ [Hr [Hfar _]]]]]]; [lra|].
  destruct (status_around_max_range (params_tx 14) 1 Hb
              (in_table_params_tx 14))
    as [m' [r' [Hm' [_ [Hr' [_ Hnear]]]]]]; [lra|].
  rewrite H0 in Hm, Hm'. injection Hm as <-. injection Hm' as <-.
  exists r, r'. split; [exact Hr|]. split; [apply Hfar; lra|].
  split; [exact Hr'|]. apply Hnear. lra.
Defined.

(** ** Recommended settings *)

Lemma bwOptions_keys : Forall (is_key bw_keys) bwOptions.
Proof.
  repeat constructor; apply is_key_IZR; simpl; auto.
Qed.

Lemma sfOptions_keys : Forall (is_key sf_keys) sfOptions.
Proof.
  repeat constructor; apply is_key_IZR; simpl; auto 10.
Qed.

Lemma recommend_step_entry d f sf recs bw :
  is_key bw_keys bw ->
  recommend_step d f sf recs bw = Ret (recs ++ grid_entry d f sf bw).
Proof.
  intro Hbw. unfold recommend_step, grid_entry.
  destruct (calculateLinkBudget_returns (grid_params d f sf bw) Hbw)
    as [r ->].
  cbn [bind]. destruct (ge (linkMargin r) 10); [reflexivity|].
  now rewrite app_nil_r.
Qed.

Lemma for_bw_entries d f sf bws recs :
  Forall (is_key bw_keys) bws ->
  for_bw d f sf bws recs = Ret (recs ++ flat_map (grid_entry d f sf) bws).
Proof.
  intro H. revert recs. induction H as [|bw bws Hbw _ IH]; intro recs.
  - simpl. now rewrite app_nil_r.
  - cbn [for_bw flat_map]. rewrite recommend_step_entry by exact Hbw.
    cbn [bind]. rewrite IH. now rewrite app_assoc.
Qed.

Lemma for_sf_entries d f sfs recs :
  for_sf d f sfs recs
  = Ret (recs
         ++ flat_map (fun sf => flat_map (grid_entry d f sf) bwOptions) sfs).
Proof.
  revert recs. induction sfs as [|sf sfs IH]; intro recs.
  - simpl. now rewrite app_nil_r.
  - cbn [for_sf flat_map]. rewrite for_bw_entries by apply bwOptions_keys.
    cbn [bind]. rewrite IH. now rewrite app_assoc.
Qed.

Lemma getRecommendedSettings_eq d f :
  getRecommendedSettings d f
  = Ret (firstn 3 (sort by_score (grid_entries d f))).
Proof.
  unfold getRecommendedSettings. now rewrite for_sf_entries.
Qed.

Lemma insert_In {A} (cmp : A -> A -> num) x l e :
  In e (insert cmp x l) <-> e = x \/ In e l.
Proof.
  induction l as [|y l IH]; cbn [insert In].
  - intuition (subst; auto).
  - destruct (gt (cmp x y) (Fin 0)); cbn [In]; rewrite ?IH;
      intuition (subst; auto).
Qed.

Lemma sort_In {A} (cmp : A -> A -> num) l e :
  In e (sort cmp l) <-> In e l.
Proof.
  induction l as [|x l IH]; simpl; [tauto|].
  rewrite insert_In, IH. intuition (subst; auto).
Qed.

Lemma insert_length {A} (cmp : A -> A -> num) x l :
  length (insert cmp x l) = S (length l).
Proof.
  induction l as [|y l IH]; cbn [insert length]; [reflexivity|].
  destruct (gt (cmp x y) (Fin 0)); cbn [length]; now rewrite ?IH.
Qed.

Lemma sort_length {A} (cmp : A -> A -> num) l :
  length (sort cmp l) = length l.
Proof.
  induction l as [|x l IH]; simpl; [reflexivity|].
  now rewrite insert_length, IH.
Qed.

Lemma firstn_In {A} (n : nat) (l : list A) e : In e (firstn n l) -> In e l.
Proof.
  revert l. induction n as [|n IH]; intros [|x l]; simpl; try tauto.
  intros [H|H]; auto.
Qed.

Lemma grid_entry_fields d f sf bw e :
  In e (grid_entry d f sf bw) ->
  rec_sf e = sf /\ rec_bw e = bw /\
  ge (rec_linkMargin e) 10 = true /\
  exists r,
    calculateLinkBudget (grid_params d f sf bw) = Ret r /\
    rec_dataRate e = dataRate r /\ rec_linkMargin e = linkMargin r /\
    rec_score e = (dataRate r * (linkMargin r / 10))%js.
Proof.
  unfold grid_entry.
  destruct (calculateLinkBudget (grid_params d f sf bw)) as [r|x];
    [|intros []].
  destruct (ge (linkMargin r) 10) eqn:E; [|intros []].
  intros [<-|[]]. simpl. repeat split; try assumption.
  exists r. repeat split.
Qed.

Lemma grid_entries_In d f e :
  In e (grid_entries d f) <->
  exists sf bw, In sf sfOptions /\ In bw bwOptions /\
                In e (grid_entry d f sf bw).
Proof.
  unfold grid_entries. rewrite in_flat_map. split.
  - intros [sf [Hsf H]]. apply in_flat_map in H. destruct H as [bw [Hbw H]].
    eauto.
  - intros [sf [bw [Hsf [Hbw H]]]]. exists sf. split; [exact Hsf|].
    apply in_flat_map. eauto.
Qed.

(** X11: for every distance and frequency the grid search returns (it never
    throws) at most 3 entries; each one is a configuration of the 6 x 3
    grid whose link margin, computed by [calculateLinkBudget] with 14 dBm,
    2 dBi gains and CR 4/5, is at least 10 dB, and it carries that budget's
    data rate and margin and the score dataRate x (linkMargin / 10). *)
Theorem getRecommendedSettings_entries (d f : num) :
  exists l,
    getRecommendedSettings d f = Ret l /\
    (length l <= 3)%nat /\
    Forall (fun e =>
      In (rec_sf e) sfOptions /\ In (rec_bw e) bwOptions /\
      ge (rec_linkMargin e) 10 = true /\
      exists r,
        calculateLinkBudget (grid_params d f (rec_sf e) (rec_bw e)) = Ret r /\
        rec_dataRate e = dataRate r /\ rec_linkMargin e = linkMargin r /\
        rec_score e = (dataRate r * (linkMargin r / 10))%js) l.
Proof.
  rewrite getRecommendedSettings_eq. eexists. split; [reflexivity|].
  split; [apply firstn_le_length|].
  apply Forall_forall. intros e He.
  apply firstn_In, sort_In, grid_entries_In in He.
  destruct He as [sf [bw [Hsf [Hbw He]]]].
  apply grid_entry_fields in He. destruct He as [-> [-> [Hm Hr]]].
  auto.
Qed.

Lemma calculateFSPL_is_fin (d f : R) :
  0 < f -> is_fin (calculateFSPL d f).
Proof.
  intro Hf. destruct (Rle_dec d 0) as [H|H].
  - unfold calculateFSPL. simpl. rewrite Rleb_true by exact H.
    eexists; reflexivity.
  - rewrite calculateFSPL_fin by lra. eexists; reflexivity.
Qed.

Lemma grid_budget_finite (d f : R) sf bw :
  0 < f -> In sf sfOptions -> In bw bwOptions ->
  exists r m dr,
    calculateLinkBudget (grid_params d f sf bw) = Ret r /\
    linkMargin r = Fin m /\ dataRate r = Fin dr.
Proof.
  intros Hf Hsf Hbw.
  assert (Ksf : is_key sf_keys sf)
    by (eapply Forall_forall; [apply sfOptions_keys | exact Hsf]).
  assert (Kbw : is_key bw_keys bw)
    by (eapply Forall_forall; [apply bwOptions_keys | exact Hbw]).
  destruct (getSensitivity_defined _ _ Kbw Ksf) as [s Hs].
  destruct (calculateFSPL_is_fin d f Hf) as [pl Hpl].
  destruct Ksf as [k [_ ->]]. destruct Kbw as [z [_ ->]].
  unfold calculateLinkBudget, grid_params.
  cbn [txPower txGain rxGain frequency distance sf bw cr fadeMargin].
  rewrite Hs, Hpl. cbn [bind to_num].
  rewrite calculateDataRate_fin by lra.
  do 3 eexists. split; [reflexivity|]. cbn [linkMargin dataRate].
  split; reflexivity.
Qed.

Lemma grid_scores_finite (d f : R) e :
  0 < f -> In e (grid_entries d f) -> is_fin (rec_score e).
Proof.
  intros Hf He. apply grid_entries_In in He.
  destruct He as [sf [bw [Hsf [Hbw He]]]].
  apply grid_entry_fields in He.
  destruct He as [_ [_ [_ [r [Hr [_ [_ Hs]]]]]]].
  destruct (grid_budget_finite d f sf bw Hf Hsf Hbw)
    as [r' [m [dr [Hr' [Hm Hdr]]]]].
  rewrite Hr in Hr'. injection Hr' as <-.
  rewrite Hs, Hm, Hdr. simpl. rewrite (Reqb_false 10 0) by lra.
  eexists; reflexivity.
Qed.

Lemma score_ge_trans a b c :
  score_ge a b -> score_ge b c -> score_ge a c.
Proof.
  unfold score_ge.
  destruct (rec_score a), (rec_score b), (rec_score c); simpl;
    intros H1 H2; try reflexivity; try discriminate.
  apply Rleb_iff in H1, H2. apply Rleb_true. lra.
Qed.

Lemma insert_sorted x l :
  is_fin (rec_score x) -> Forall (fun e => is_fin (rec_score e)) l ->
  StronglySorted score_ge l ->
  StronglySorted score_ge (insert by_score x l).
Proof.
  intros [sx Hx] Hfin Hs. induction Hs as [|y l Hs IH Hy]; cbn [insert].
  - repeat constructor.
  - inversion Hfin as [|? ? [sy Hsy] Hfin']; subst.
    unfold gt, by_score. rewrite Hx, Hsy. cbn [sub neg add lt].
    unfold Rltb. destruct (Rlt_dec 0 (sy + - sx)) as [H|H].
    + constructor; [now apply IH|].
      apply Forall_forall. intros e He. apply insert_In in He.
      destruct He as [->|He].
      * unfold score_ge. rewrite Hx, Hsy. simpl. apply Rleb_true. lra.
      * eapply Forall_forall in Hy; eauto.
    + assert (Hxy : score_ge x y).
      { unfold score_ge. rewrite Hx, Hsy. simpl. apply Rleb_true. lra. }
      constructor; [now constructor|].
      constructor; [exact Hxy|].
      eapply Forall_impl; [|exact Hy].
      intros e He. eapply score_ge_trans; eauto.
Qed.

Lemma sort_sorted l :
  Forall (fun e => is_fin (rec_score e)) l ->
  StronglySorted score_ge (sort by_score l).
Proof.
  induction 1 as [|x l Hx Hl IH]; cbn [sort]; [constructor|].
  apply insert_sorted; [exact Hx | | exact IH].
  apply Forall_forall. intros e He. apply sort_In in He.
  eapply Forall_forall in Hl; eauto.
Qed.

Lemma sorted_app_order {A} (R : A -> A -> Prop) l1 l2 a b :
  StronglySorted R (l1 ++ l2) -> In a l1 -> In b l2 -> R a b.
Proof.
  induction l1 as [|x l1 IH]; simpl; [tauto|].
  intros Hs [->|Ha] Hb; inversion Hs; subst.
  - eapply Forall_forall; [eassumption|]. apply in_or_app. now right.
  - now apply IH.
Qed.

Lemma sorted_app_l {A} (R : A -> A -> Prop) l1 l2 :
  StronglySorted R (l1 ++ l2) -> StronglySorted R l1.
Proof.
  induction l1 as [|x l1 IH]; simpl; [constructor|].
  intro Hs. inversion Hs; subst. constructor; [now apply IH|].
  apply Forall_forall. intros e He.
  eapply Forall_forall; [eassumption|]. apply in_or_app. now left.
Qed.

(** X12: for a finite distance and a positive finite frequency the entries
    come back by descending score, they are the first 3 of all passing
    configurations (all of them when fewer pass), and no passing
    configuration left out scores above a returned one. *)
Theorem getRecommendedSettings_top3 (d f : R) :
  0 < f ->
  exists l,
    getRecommendedSettings d f = Ret l /\
    StronglySorted score_ge l /\
    length l = Nat.min 3 (length (grid_entries d f)) /\
    forall e e', In e l -> In e' (grid_entries d f) -> ~ In e' l ->
                 score_ge e e'.
Proof.
  intro Hf. rewrite getRecommendedSettings_eq. eexists.
  split; [reflexivity|].
  assert (Hs : StronglySorted score_ge (sort by_score (grid_entries d f))).
  { apply sort_sorted, Forall_forall. intros e He.
    now apply grid_scores_finite with (d := d) (f := f). }
  rewrite <- (firstn_skipn 3 (sort by_score (grid_entries d f))) in Hs.
  split; [eapply sorted_app_l; eassumption|].
  split; [now rewrite length_firstn, sort_length|].
  intros e e' He He' Hn.
  eapply sorted_app_order; [exact Hs | exact He |].
  pose proof (proj2 (sort_In by_score _ _) He') as Hin.
  rewrite <- (firstn_skipn 3 (sort by_score (grid_entries d f))) in Hin.
  apply in_app_or in Hin. tauto.
Qed.

Lemma getRecommendedSettings_top3_witness :
  exists l,
    getRecommendedSettings 2 868 = Ret l /\
    StronglySorted score_ge l /\
    length l = Nat.min 3 (length (grid_entries 2 868)) /\
    forall e e', In e l -> In e' (grid_entries 2 868) -> ~ In e' l ->
                 score_ge e e'.
Proof.
  apply (getRecommendedSettings_top3 2 868). lra.
Defined.

(** ** Earth bulge *)

Lemma calculateEarthBulge_fin (d1 d2 : R) :
  calculateEarthBulge d1 d2 = Fin (d1 * d2 / (2 * 6371) * 1000).
Proof.
  unfold calculateEarthBulge, earthRadius. simpl.
  now rewrite (Reqb_false (2 * 6371) 0) by lra.
Qed.

(** X13: the earth bulge is symmetric in its two distances; for d1, d2 >= 0
    it is a number b >= 0, it is 0 at an end of the path (d1 = 0), and over
    the splits of one total distance it is largest at the midpoint. *)
Theorem calculateEarthBulge_shape (d1 d2 : R) :
  0 <= d1 -> 0 <= d2 ->
  calculateEarthBulge d1 d2 = calculateEarthBulge d2 d1 /\
  calculateEarthBulge 0 d2 = Fin 0 /\
  le 0 (calculateEarthBulge d1 d2) = true /\
  le (calculateEarthBulge d1 d2)
     (calculateEarthBulge (Fin ((d1 + d2) / 2)) (Fin ((d1 + d2) / 2))) = true.
Proof.
  intros H1 H2. rewrite !calculateEarthBulge_fin. repeat split.
  - f_equal. lra.
  - f_equal. lra.
  - simpl. apply Rleb_true.
    assert (0 <= d1 * d2) by (now apply Rmult_le_pos). lra.
  - simpl. apply Rleb_true.
    generalize (Rle_0_sqr (d1 - d2)). unfold Rsqr. lra.
Qed.

Lemma calculateEarthBulge_shape_witness :
  le (calculateEarthBulge 1 3)
     (calculateEarthBulge (Fin ((1 + 3) / 2)) (Fin ((1 + 3) / 2))) = true.
Proof.
  apply (calculateEarthBulge_shape 1 3); lra.
Defined.

(** ** Great-circle distance *)

Lemma calculateDistance_fin (lat1 lon1 lat2 lon2 : R) :
  calculateDistance lat1 lon1 lat2 lon2
  = (earthRadius
     * (2 * Math_atan2
              (Math_sqrt (Fin (haversine_a lat1 lon1 lat2 lon2)))
              (Math_sqrt (Fin (1 - haversine_a lat1 lon1 lat2 lon2)))))%js.
Proof.
  unfold calculateDistance, toRadians.
  cbn [sub neg add mul div Math_sin Math_cos].
  rewrite !(Reqb_false 180 0) by lra.
  cbn [sub neg add mul div Math_sin Math_cos].
  rewrite !(Reqb_false 2 0) by lra.
  cbn [sub neg add mul div Math_sin Math_cos].
  reflexivity.
Qed.

Lemma haversine_a_sym lat1 lon1 lat2 lon2 :
  haversine_a lat1 lon1 lat2 lon2 = haversine_a lat2 lon2 lat1 lon1.
Proof.
  unfold haversine_a.
  replace ((lat1 - lat2) * PI / 180 / 2)
    with (- ((lat2 - lat1) * PI / 180 / 2)) by lra.
  replace ((lon1 - lon2) * PI / 180 / 2)
    with (- ((lon2 - lon1) * PI / 180 / 2)) by lra.
  rewrite !sin_neg. ring.
Qed.

Lemma haversine_a_same lat lon : haversine_a lat lon lat lon = 0.
Proof.
  unfold haversine_a.
  replace ((lat - lat) * PI / 180 / 2) with 0 by lra.
  replace ((lon - lon) * PI / 180 / 2) with 0 by lra.
  rewrite sin_0. ring.
Qed.

Lemma calculateDistance_self (lat lon : R) :
  calculateDistance lat lon lat lon = Fin 0.
Proof.
  rewrite calculateDistance_fin, haversine_a_same.
  unfold earthRadius. simpl.
  rewrite (Rltb_false 0 0) by lra.
  rewrite (Rltb_false (1 - 0) 0) by lra. simpl.
  rewrite Rltb_true by (rewrite Rminus_0_r, sqrt_1; lra).
  rewrite sqrt_0. unfold Rdiv. rewrite Rmult_0_l, atan_0.
  f_equal. ring.
Qed.

(** X14: for finite coordinates the haversine distance is symmetric, and
    the distance from a point to itself is 0. *)
Theorem calculateDistance_symmetric (lat1 lon1 lat2 lon2 : R) :
  calculateDistance lat1 lon1 lat2 lon2
  = calculateDistance lat2 lon2 lat1 lon1 /\
  calculateDistance lat1 lon1 lat1 lon1 = Fin 0.
Proof.
  split; [|apply calculateDistance_self].
  rewrite !calculateDistance_fin.
  now rewrite (haversine_a_sym lat1 lon1 lat2 lon2).
Qed.

Lemma cos_latitude_nonneg lat : -90 <= lat <= 90 -> 0 <= cos (lat * PI / 180).
Proof.
  intros [H1 H2]. pose proof PI_RGT_0 as HP.
  apply cos_ge_0.
  - assert (0 <= (lat + 90) * PI) by (apply Rmult_le_pos; lra). lra.
  - assert (0 <= (90 - lat) * PI) by (apply Rmult_le_pos; lra). lra.
Qed.

Lemma sin_sqr_bound x : 0 <= sin x * sin x <= 1.
Proof.
  pose proof (sin2_cos2 x) as H. unfold Rsqr in H.
  pose proof (Rle_0_sqr (sin x)) as H1. pose proof (Rle_0_sqr (cos x)) as H2.
  unfold Rsqr in H1, H2. lra.
Qed.

Lemma cos_product_bound r1 r2 :
  cos r1 * cos r2 <= 1 - sin ((r2 - r1) / 2) * sin ((r2 - r1) / 2).
Proof.
  pose proof (cos_minus r2 r1) as Hm. pose proof (cos_plus r2 r1) as Hp.
  pose proof (COS_bound (r2 + r1)) as [_ Hb].
  pose proof (cos_2a_sin ((r2 - r1) / 2)) as H2.
  replace (2 * ((r2 - r1) / 2)) with (r2 - r1) in H2 by lra.
  lra.
Qed.

Lemma haversine_a_bounds lat1 lon1 lat2 lon2 :
  -90 <= lat1 <= 90 -> -90 <= lat2 <= 90 ->
  0 <= haversine_a lat1 lon1 lat2 lon2 <= 1.
Proof.
  intros H1 H2. unfold haversine_a.
  pose proof (cos_latitude_nonneg lat1 H1) as C1.
  pose proof (cos_latitude_nonneg lat2 H2) as C2.
  pose proof (sin_sqr_bound ((lat2 - lat1) * PI / 180 / 2)) as [S0 S1].
  pose proof (sin_sqr_bound ((lon2 - lon1) * PI / 180 / 2)) as [W0 W1].
  pose proof (cos_product_bound (lat1 * PI / 180) (lat2 * PI / 180)) as HC.
  replace ((lat2 * PI / 180 - lat1 * PI / 180) / 2)
    with ((lat2 - lat1) * PI / 180 / 2) in HC by lra.
  set (S := sin ((lat2 - lat1) * PI / 180 / 2)
            * sin ((lat2 - lat1) * PI / 180 / 2)) in *.
  set (W := sin ((lon2 - lon1) * PI / 180 / 2)
            * sin ((lon2 - lon1) * PI / 180 / 2)) in *.
  set (C := cos (lat1 * PI / 180) * cos (lat2 * PI / 180)) in *.
  assert (HC0 : 0 <= C) by (now apply Rmult_le_pos).
  replace (C * sin ((lon2 - lon1) * PI / 180 / 2)
           * sin ((lon2 - lon1) * PI / 180 / 2)) with (C * W)
    by (unfold W; ring).
  assert (0 <= C * W) by (now apply Rmult_le_pos).
  assert (C * W <= C * 1) by (apply Rmult_le_compat_l; lra).
  lra.
Qed.

Lemma atan_nonneg x : 0 <= x -> 0 <= atan x.
Proof.
  intros [H|<-]; [|rewrite atan_0; lra].
  left. rewrite <- atan_0. now apply atan_increasing.
Qed.

Lemma atan2_quadrant (y x : R) :
  0 <= y -> 0 <= x ->
  exists t, Math_atan2 (Fin y) (Fin x) = Fin t /\ 0 <= t <= PI / 2.
Proof.
  intros Hy Hx. pose proof PI_RGT_0 as HP. unfold Math_atan2, Rltb.
  destruct (Rlt_dec 0 x) as [H|H].
  - eexists. split; [reflexivity|]. split.
    + apply atan_nonneg. apply Rmult_le_pos; [lra|].
      left. now apply Rinv_0_lt_compat.
    + left. apply atan_bound.
  - destruct (Rlt_dec x 0); [lra|].
    destruct (Rlt_dec 0 y).
    + eexists. split; [reflexivity | lra].
    + destruct (Rlt_dec y 0); [lra|].
      eexists. split; [reflexivity | lra].
Qed.

Lemma PI_upper : PI <= 3.1416.
Proof.
  pose proof (PI_2_3_7_ineq 2) as [_ H].
  unfold sum_f_R0, tg_alt, PI_2_3_7_tg, Ratan_seq in H.
  simpl in H. lra.
Qed.

(** The last two lines of [calculateDistance], for any haversine term. *)
Lemma central_angle_range (a : num) :
  let d := (earthRadius
            * (2 * Math_atan2 (Math_sqrt a) (Math_sqrt (1 - a))))%js in
  d = NaN \/ exists x, d = Fin x /\ 0 <= x <= 20016.
Proof.
  destruct a as [r| | |]; cbn zeta; try (left; reflexivity).
  cbn [sub neg add]. unfold Math_sqrt, Rltb.
  destruct (Rlt_dec r 0); [left; reflexivity|].
  destruct (Rlt_dec (1 + - r) 0); [left; reflexivity|].
  right.
  destruct (atan2_quadrant (sqrt r) (sqrt (1 + - r)))
    as [t [-> Ht]]; try apply sqrt_pos.
  unfold earthRadius. cbn [mul]. eexists. split; [reflexivity|].
  pose proof PI_upper. lra.
Qed.

Lemma atan2_positive (y x : R) :
  0 < y -> 0 <= x -> exists t, Math_atan2 (Fin y) (Fin x) = Fin t /\ 0 < t.
Proof.
  intros Hy Hx. pose proof PI_RGT_0 as HP. unfold Math_atan2, Rltb.
  destruct (Rlt_dec 0 x) as [H|H].
  - eexists. split; [reflexivity|].
    rewrite <- atan_0. apply atan_increasing.
    apply Rmult_lt_0_compat; [lra | now apply Rinv_0_lt_compat].
  - destruct (Rlt_dec x 0); [lra|].
    destruct (Rlt_dec 0 y); [|lra].
    eexists. split; [reflexivity | lra].
Qed.

(** Two points of different latitudes are at a positive distance. *)
Lemma calculateDistance_positive (lat1 lon1 lat2 lon2 : R) :
  -90 <= lat1 -> lat1 < lat2 -> lat2 <= 90 ->
  exists D, calculateDistance lat1 lon1 lat2 lon2 = Fin D /\ 0 < D.
Proof.
  intros H1 H12 H2. rewrite calculateDistance_fin.
  pose proof (haversine_a_bounds lat1 lon1 lat2 lon2) as [Ha0 Ha1]; try lra.
  assert (Hpos : 0 < haversine_a lat1 lon1 lat2 lon2).
  { pose proof PI_RGT_0 as HP. unfold haversine_a.
    assert (S : 0 < sin ((lat2 - lat1) * PI / 180 / 2)).
    { apply sin_gt_0.
      - assert (0 < (lat2 - lat1) * PI) by (apply Rmult_lt_0_compat; lra).
        lra.
      - assert ((lat2 - lat1) * PI <= 180 * PI)
          by (apply Rmult_le_compat_r; lra).
        lra. }
    assert (S2 : 0 < sin ((lat2 - lat1) * PI / 180 / 2)
                     * sin ((lat2 - lat1) * PI / 180 / 2))
      by (now apply Rmult_lt_0_compat).
    pose proof (cos_latitude_nonneg lat1) as C1.
    pose proof (cos_latitude_nonneg lat2) as C2.
    pose proof (sin_sqr_bound ((lon2 - lon1) * PI / 180 / 2)) as [W0 _].
    assert (0 <= cos (lat1 * PI / 180) * cos (lat2 * PI / 180))
      by (apply Rmult_le_pos; [apply C1 | apply C2]; lra).
    assert (0 <= cos (lat1 * PI / 180) * cos (lat2 * PI / 180)
                 * (sin ((lon2 - lon1) * PI / 180 / 2)
                    * sin ((lon2 - lon1) * PI / 180 / 2)))
      by (now apply Rmult_le_pos).
    lra. }
  unfold Math_sqrt. rewrite !Rltb_false by lra.
  destruct (atan2_positive (sqrt (haversine_a lat1 lon1 lat2 lon2))
              (sqrt (1 - haversine_a lat1 lon1 lat2 lon2)))
    as [t [-> Ht]]; [now apply sqrt_lt_R0 | apply sqrt_pos|].
  unfold earthRadius. cbn [mul]. eexists. split; [reflexivity | lra].
Qed.

(** X15: for all arguments the haversine distance is either NaN or a number
    between 0 and half the circumference of the earth sphere (pi x 6371 km,
    below 20016 km); for finite coordinates with latitudes in [-80, 80] and
    longitudes at most 90 degrees apart, away from the poles and from
    antipodal points, it is not NaN. *)
Theorem calculateDistance_range (lat1 lon1 lat2 lon2 : num) :
  (calculateDistance lat1 lon1 lat2 lon2 = NaN \/
   exists x, calculateDistance lat1 lon1 lat2 lon2 = Fin x /\
             0 <= x <= 20016) /\
  (forall a1 o1 a2 o2 : R,
     lat1 = Fin a1 -> lon1 = Fin o1 -> lat2 = Fin a2 -> lon2 = Fin o2 ->
     -80 <= a1 <= 80 -> -80 <= a2 <= 80 -> Rabs (o2 - o1) <= 90 ->
     calculateDistance lat1 lon1 lat2 lon2 <> NaN).
Proof.
  split; [apply central_angle_range|].
  intros a1 o1 a2 o2 -> -> -> -> H1 H2 _.
  rewrite calculateDistance_fin.
  pose proof (haversine_a_bounds a1 o1 a2 o2) as [Ha0 Ha1]; try lra.
  unfold Math_sqrt. rewrite !Rltb_false by lra.
  destruct (atan2_quadrant (sqrt (haversine_a a1 o1 a2 o2))
              (sqrt (1 - haversine_a a1 o1 a2 o2)))
    as [t [-> Ht]]; try apply sqrt_pos.
  discriminate.
Qed.

Lemma calculateDistance_range_witness :
  exists x, calculateDistance 45 7 46 8 = Fin x /\ 0 <= x <= 20016.
Proof.
  destruct (calculateDistance_range 45 7 46 8) as [[H|H] Hn].
  - exfalso.
    apply (Hn 45 7 46 8); try reflexivity; try lra; try exact H.
    rewrite Rabs_pos_eq; lra.
  - exact H.
Defined.

(** ** Path interpolation *)

Lemma nth_error_seq_lt (a len i : nat) :
  (i < len)%nat -> nth_error (seq a len) i = Some (a + i)%nat.
Proof.
  revert a i. induction len as [|len IH]; intros a i H; [lia|].
  destruct i as [|i]; simpl.
  - f_equal. lia.
  - rewrite IH by lia. f_equal. lia.
Qed.

Lemma interpolatePath_nth lat1 lon1 lat2 lon2 (n i : nat) :
  (i <= n)%nat ->
  nth_error (interpolatePath lat1 lon1 lat2 lon2 (Some n)) i
  = Some (point_at lat1 lon1 lat2 lon2 n i).
Proof.
  intro H. unfold interpolatePath. apply map_nth_error.
  now rewrite nth_error_seq_lt by lia.
Qed.

(** X16: with finite coordinates and numPoints = n >= 1 the first point of
    the path is exactly (lat1, lon1), and a path between two points of the
    same latitude (longitude) keeps that latitude (longitude) at every
    point. *)
Theorem interpolatePath_start (lat1 lon1 lat2 lon2 : R) (n i : nat) :
  (1 <= n)%nat -> (i <= n)%nat ->
  let path := interpolatePath lat1 lon1 lat2 lon2 (Some n) in
  nth_error path 0 = Some (mkPoint lat1 lon1) /\
  (lat1 = lat2 ->
   exists p, nth_error path i = Some p /\ p_lat p = Fin lat1) /\
  (lon1 = lon2 ->
   exists p, nth_error path i = Some p /\ p_lon p = Fin lon1).
Proof.
  intros Hn Hi path. unfold path.
  assert (Hpos : 0 < INR n) by (apply lt_0_INR; lia).
  split; [|split].
  - rewrite interpolatePath_nth by lia. f_equal.
    unfold point_at, of_nat. cbn [INR div sub neg mul add].
    rewrite (Reqb_false (INR n) 0) by lra. cbn [mul add].
    f_equal; f_equal; field; lra.
  - intros <-. rewrite interpolatePath_nth by exact Hi.
    eexists. split; [reflexivity|].
    unfold point_at, of_nat. cbn [p_lat div sub neg mul add].
    rewrite (Reqb_false (INR n) 0) by lra. cbn [mul add].
    f_equal. ring.
  - intros <-. rewrite interpolatePath_nth by exact Hi.
    eexists. split; [reflexivity|].
    unfold point_at, of_nat. cbn [p_lon div sub neg mul add].
    rewrite (Reqb_false (INR n) 0) by lra. cbn [mul add].
    f_equal. ring.
Qed.

Lemma interpolatePath_start_witness :
  nth_error (interpolatePath 45.1 0.7 7.3 0.1 (Some 4%nat)) 0
  = Some (mkPoint 45.1 0.7) /\
  exists p,
    nth_error (interpolatePath 45 7 45 8 (Some 4%nat)) 3 = Some p /\
    p_lat p = Fin 45.
Proof.
  split.
  - apply (interpolatePath_start 45.1 0.7 7.3 0.1 4 0); lia.
  - apply (interpolatePath_start 45 7 45 8 4 3); [lia | lia | reflexivity].
Defined.

(** X17: for all coordinates the path has numPoints + 1 points, 51 when
    the argument is absent; with numPoints = 0 it is the single point
    (NaN, NaN), the fraction being 0/0. *)
Theorem interpolatePath_count (lat1 lon1 lat2 lon2 : num) (n : option nat) :
  length (interpolatePath lat1 lon1 lat2 lon2 n)
  = S (match n with Some k => k | None => 50%nat end) /\
  interpolatePath lat1 lon1 lat2 lon2 (Some 0%nat) = [mkPoint NaN NaN].
Proof.
  split.
  - unfold interpolatePath. now rewrite length_map, length_seq.
  - unfold interpolatePath, point_at, of_nat. cbn [seq map INR div].
    rewrite Reqb_true by reflexivity. unfold signed_inf.
    rewrite !Rltb_false by lra.
    destruct lat1, lon1, lat2, lon2; reflexivity.
Qed.

(** ** Terrain statistics *)

Lemma Math_min_fin a b : Math_min (Fin a) (Fin b) = Fin (Rmin a b).
Proof.
  unfold Math_min, Rmin. simpl. unfold Rltb.
  destruct (Rlt_dec b a), (Rle_dec a b); try lra; reflexivity.
Qed.

Lemma Math_max_fin a b : Math_max (Fin a) (Fin b) = Fin (Rmax a b).
Proof.
  unfold Math_max, Rmax. simpl. unfold Rltb.
  destruct (Rlt_dec a b), (Rle_dec a b); try lra; try reflexivity.
  f_equal. lra.
Qed.

Lemma fold_min_fin es a :
  exists m, fold_left Math_min (map Fin es) (Fin a) = Fin m /\
            m <= a /\ (forall e, In e es -> m <= e) /\
            (m = a \/ In m es).
Proof.
  revert a. induction es as [|e es IH]; intro a; simpl.
  - exists a. repeat split; auto; try lra. intros ? [].
  - rewrite Math_min_fin. destruct (IH (Rmin a e)) as [m [-> [H1 [H2 H3]]]].
    exists m. split; [reflexivity|].
    pose proof (Rmin_l a e). pose proof (Rmin_r a e).
    split; [lra|]. split.
    + intros x [<-|Hx]; [lra | auto].
    + destruct H3 as [->|H3]; [|auto].
      unfold Rmin. destruct (Rle_dec a e); auto.
Qed.

Lemma fold_max_fin es a :
  exists m, fold_left Math_max (map Fin es) (Fin a) = Fin m /\
            a <= m /\ (forall e, In e es -> e <= m) /\
            (m = a \/ In m es).
Proof.
  revert a. induction es as [|e es IH]; intro a; simpl.
  - exists a. repeat split; auto; try lra. intros ? [].
  - rewrite Math_max_fin. destruct (IH (Rmax a e)) as [m [-> [H1 [H2 H3]]]].
    exists m. split; [reflexivity|].
    pose proof (Rmax_l a e). pose proof (Rmax_r a e).
    split; [lra|]. split.
    + intros x [<-|Hx]; [lra | auto].
    + destruct H3 as [->|H3]; [|auto].
      unfold Rmax. destruct (Rle_dec a e); auto.
Qed.

Lemma gain_loss_nonneg es p g0 l0 :
  exists g l,
    gain_loss (Fin p) (map Fin es) (Fin g0, Fin l0) = (Fin g, Fin l) /\
    g0 <= g /\ l0 <= l.
Proof.
  revert p g0 l0. induction es as [|e es IH]; intros p g0 l0.
  - exists g0, l0. simpl. repeat split; lra.
  - cbn [map gain_loss sub neg add gt lt]. unfold Rltb.
    destruct (Rlt_dec 0 (e + - p)) as [H|H].
    + destruct (IH e (g0 + (e + - p)) l0) as [g [l [-> [H1 H2]]]].
      exists g, l. split; [reflexivity|]. split; lra.
    + cbn [Math_abs add].
      destruct (IH e g0 (l0 + Rabs (e + - p))) as [g [l [-> [H1 H2]]]].
      exists g, l. split; [reflexivity|].
      pose proof (Rabs_pos (e + - p)). split; lra.
Qed.

(** X18: on a non-empty profile of finite elevations, of at most 65535
    samples (the spread calls [Math.min(...elevations)] and
    [Math.max(...elevations)] pass one argument per sample), [min] and
    [max] are elevations of the profile that bound all of them,
    [elevationChange] is max - min and is not negative, and neither are the
    total gain and the total loss. *)
Theorem getTerrainStats_bounds (ep : ElevationProfile) (e0 : R) (es : list R) :
  map s_elevation (profile ep) = map Fin (e0 :: es) ->
  (Z.of_nat (length (profile ep)) <= 65535)%Z ->
  let stats := getTerrainStats ep in
  exists mn mx,
    t_min stats = Fin mn /\ t_max stats = Fin mx /\
    In mn (e0 :: es) /\ In mx (e0 :: es) /\
    (forall e, In e (e0 :: es) -> mn <= e <= mx) /\
    t_elevationChange stats = (t_max stats - t_min stats)%js /\
    le 0 (t_elevationChange stats) = true /\
    le 0 (t_totalGain stats) = true /\
    le 0 (t_totalLoss stats) = true.
Proof.
  intros H _. cbn zeta. unfold getTerrainStats. rewrite H.
  unfold Math_min_of, Math_max_of.
  cbn [map fold_left]. change (Math_min PInf (Fin e0)) with (Fin e0).
  change (Math_max NInf (Fin e0)) with (Fin e0).
  destruct (fold_min_fin es e0) as [mn [-> [Hn1 [Hn2 Hn3]]]].
  destruct (fold_max_fin es e0) as [mx [-> [Hx1 [Hx2 Hx3]]]].
  destruct (gain_loss_nonneg es e0 0 0) as [g [l [-> [Hg Hl]]]].
  cbn [t_min t_max t_totalGain t_totalLoss t_elevationChange].
  exists mn, mx.
  split; [reflexivity|]. split; [reflexivity|].
  split; [destruct Hn3 as [->|]; simpl; auto|].
  split; [destruct Hx3 as [->|]; simpl; auto|].
  split; [intros e [<-|He]; [lra | split; auto]|].
  split; [reflexivity|].
  simpl. repeat split; apply Rleb_true; lra.
Qed.

Lemma getTerrainStats_bounds_witness :
  exists mn mx,
    t_min (getTerrainStats hill_profile) = Fin mn /\
    t_max (getTerrainStats hill_profile) = Fin mx /\
    In mn [0; 500; 0] /\ In mx [0; 500; 0] /\
    (forall e, In e [0; 500; 0] -> mn <= e <= mx) /\
    t_elevationChange (getTerrainStats hill_profile)
    = (t_max (getTerrainStats hill_profile)
       - t_min (getTerrainStats hill_profile))%js /\
    le 0 (t_elevationChange (getTerrainStats hill_profile)) = true /\
    le 0 (t_totalGain (getTerrainStats hill_profile)) = true /\
    le 0 (t_totalLoss (getTerrainStats hill_profile)) = true.
Proof.
  apply (getTerrainStats_bounds hill_profile 0 [500; 0]).
  - reflexivity.
  - simpl. lia.
Defined.

(** X19: on an empty profile the statistics degenerate: min is +Infinity,
    max is -Infinity, the average is NaN (0/0), gain and loss are 0 and
    elevationChange is -Infinity. *)
Theorem getTerrainStats_empty (ep : ElevationProfile) :
  profile ep = [] ->
  getTerrainStats ep = mkStats PInf NInf NaN 0 0 NInf.
Proof.
  intro H. unfold getTerrainStats. rewrite H. simpl.
  rewrite Reqb_true by reflexivity. unfold signed_inf.
  now rewrite !Rltb_false by lra.
Qed.

Lemma getTerrainStats_empty_witness :
  getTerrainStats (mkProfile [] 0) = mkStats PInf NInf NaN 0 0 NInf.
Proof.
  apply (getTerrainStats_empty (mkProfile [] 0)). reflexivity.
Defined.

(** ** Further properties of the line-of-sight scan *)

(** X20: at a sample where the line height, the obstruction height and the
    local Fresnel radius are finite and the radius is positive, an
    obstruction is recorded only where the clearance percentage is far
    below zero: the obstruction rises above the direct line by 60% of the
    radius, so the percentage is below -59. *)
Theorem obstructed_clearance_below_minus_59
    (total startE endE f : num) (bs : list Building) (pt : Sample)
    (a h r : R) :
  adjustedLineHeight total startE endE pt = Fin a ->
  obstructionHeight bs pt = Fin h ->
  localFresnelRadius total f pt = Fin r -> 0 < r ->
  obstructed total startE endE f bs pt = true ->
  lt (fresnelClearancePercent total startE endE f bs pt) (Fin (-59)) = true.
Proof.
  intros Ha Hh Hr Hpos.
  unfold obstructed, fresnelClearancePercent, requiredHeight, gt.
  rewrite Ha, Hh, Hr. cbn [sub neg add mul div lt].
  rewrite (Reqb_false r 0) by lra. cbn [mul lt].
  assert (Hq : (a + - h) / r * r = a + - h) by (field; lra).
  set (q := (a + - h) / r) in *.
  rewrite !Rltb_iff. intro H.
  assert (q * r < -0.6 * r) by lra.
  assert (q < -0.6) by (apply Rmult_lt_reg_r with r; lra). lra.
Qed.

Lemma hill_radius :
  localFresnelRadius 2 868 (mkSample 45 7.01 500 1)
  = Fin (17.3 * sqrt (1 * (2 + - (1)) / (868 * (1 + (2 + - (1)))))).
Proof.
  unfold localFresnelRadius, d2_at, d1_at. cbn [s_distance sub neg add].
  now rewrite calculateFresnelRadius_fin by lra.
Qed.

Lemma hill_sample_obstructed :
  obstructed 2 (0 + 10)%js (0 + 10)%js 868 [] (mkSample 45 7.01 500 1) = true.
Proof.
  unfold obstructed, gt. destruct hill_required_height as [h [-> Hh]].
  unfold obstructionHeight. simpl. now apply Rltb_true.
Qed.

Lemma obstructed_clearance_below_minus_59_witness :
  obstructed 2 (0 + 10)%js (0 + 10)%js 868 [] (mkSample 45 7.01 500 1) = true
  /\ lt (fresnelClearancePercent 2 (0 + 10)%js (0 + 10)%js 868 []
           (mkSample 45 7.01 500 1)) (Fin (-59)) = true.
Proof.
  split; [apply hill_sample_obstructed|].
  eapply (obstructed_clearance_below_minus_59
            2 (0 + 10)%js (0 + 10)%js 868 [] (mkSample 45 7.01 500 1)).
  - unfold adjustedLineHeight, calculateEarthBulge, d2_at, d1_at, earthRadius.
    simpl. rewrite !(Reqb_false 2 0) by lra. simpl.
    rewrite (Reqb_false (2 * 6371) 0) by lra. reflexivity.
  - reflexivity.
  - apply hill_radius.
  - apply Rmult_lt_0_compat; [lra|]. apply sqrt_lt_R0.
    apply Rmult_lt_0_compat; [lra|]. apply Rinv_0_lt_compat. lra.
  - apply hill_sample_obstructed.
Defined.

Lemma obstructionHeight_ge (bs : list Building) (pt : Sample) (e : R) :
  s_elevation pt = Fin e ->
  Forall (fun b => is_fin (b_height b)) bs ->
  exists h, obstructionHeight bs pt = Fin h /\ e <= h.
Proof.
  intros He Hb. unfold obstructionHeight. rewrite He.
  assert (G : forall c, e <= c ->
            exists h, fold_left (raise_to_building pt) bs (Fin c) = Fin h
                      /\ e <= h).
  { induction Hb as [|b bs [bh Hbh] _ IH]; intros c Hc.
    - exists c. split; [reflexivity | exact Hc].
    - cbn [fold_left]. unfold raise_to_building at 2.
      rewrite He, Hbh. cbn [add].
      destruct (lt _ _).
      + rewrite Math_max_fin. apply IH.
        eapply Rle_trans; [exact Hc | apply Rmax_l].
      + now apply IH. }
  apply G. lra.
Qed.

Lemma obstructed_with_buildings total startE endE f bs pt :
  is_fin (s_elevation pt) ->
  Forall (fun b => is_fin (b_height b)) bs ->
  obstructed total startE endE f [] pt = true ->
  obstructed total startE endE f bs pt = true.
Proof.
  intros [e He] Hb. unfold obstructed, gt.
  destruct (obstructionHeight_ge bs pt e He Hb) as [h [-> Hh]].
  unfold obstructionHeight at 1. cbn [fold_left]. rewrite He.
  destruct (requiredHeight total startE endE f pt); simpl;
    try discriminate; try reflexivity.
  rewrite !Rltb_iff. lra.
Qed.

(** Once NaN, the obstruction height stays NaN. *)
Lemma raise_from_NaN (pt : Sample) (bs : list Building) :
  fold_left (raise_to_building pt) bs NaN = NaN.
Proof.
  induction bs as [|b bs IH]; [reflexivity|].
  cbn [fold_left]. unfold raise_to_building at 2.
  destruct (lt _ _); exact IH.
Qed.

Lemma obstructionHeight_NaN (bs : list Building) (pt : Sample) (b : Building) :
  In b bs -> b_height b = NaN ->
  lt (calculateDistance (s_lat pt) (s_lon pt) (b_lat b) (b_lon b)) 0.05
  = true ->
  obstructionHeight bs pt = NaN.
Proof.
  intros Hin Hh Hd. unfold obstructionHeight.
  generalize (s_elevation pt) at 1. revert Hin.
  induction bs as [|b' bs IH]; intros Hin acc; [destruct Hin|].
  cbn [fold_left]. destruct Hin as [->|Hin]; [|now apply IH].
  unfold raise_to_building at 2. rewrite Hd, Hh, add_NaN_r.
  unfold Math_max. rewrite orb_true_r. apply raise_from_NaN.
Qed.

(** X21: on a profile with at least 2 samples and finite interior
    elevations, buildings of finite height can only add obstructions: a
    line of sight found with them is also found with no buildings.  A
    building whose height is NaN does the opposite: within 50 m of every
    interior sample it makes every obstruction height NaN, so that no
    obstruction is recorded, whatever the terrain. *)
Theorem buildings_and_line_of_sight
    (ep : ElevationProfile) (h1 h2 fr f : num) (bs : list Building) :
  (2 <= length (profile ep))%nat ->
  Forall (fun pt => is_fin (s_elevation pt)) (interior (profile ep)) ->
  (Forall (fun b => is_fin (b_height b)) bs ->
   hasLoS (analyzeLineOfSight ep h1 h2 fr f bs) = true ->
   hasLoS (analyzeLineOfSight ep h1 h2 fr f []) = true) /\
  (forall b, In b bs -> b_height b = NaN ->
     (forall pt, In pt (interior (profile ep)) ->
        lt (calculateDistance (s_lat pt) (s_lon pt) (b_lat b) (b_lon b)) 0.05
        = true) ->
     hasLoS (analyzeLineOfSight ep h1 h2 fr f bs) = true).
Proof.
  intros H Hfin. destruct (profile_two _ H) as [first [second [rest Hp]]].
  rewrite !(analyzeLineOfSight_scan ep h1 h2 fr f _ _ _ _ Hp).
  cbn zeta. cbn [hasLoS]. rewrite !length_zero_iff. split.
  - intros Hb Hbs. apply map_eq_nil in Hbs. rewrite filter_nil_iff in Hbs.
    replace (filter _ (interior (profile ep))) with (@nil Sample);
      [reflexivity|].
    symmetry. apply filter_nil_iff. intros pt Hpt.
    destruct (obstructed _ _ _ _ [] pt) eqn:E; [|reflexivity].
    rewrite <- (Hbs pt Hpt). symmetry.
    apply obstructed_with_buildings; try assumption.
    eapply Forall_forall in Hfin; eauto.
  - intros b Hin Hh Hnear.
    replace (filter _ (interior (profile ep))) with (@nil Sample);
      [reflexivity|].
    symmetry. apply filter_nil_iff. intros pt Hpt.
    unfold obstructed, gt.
    rewrite (obstructionHeight_NaN bs pt b Hin Hh (Hnear pt Hpt)).
    now destruct (requiredHeight _ _ _ _ pt).
Qed.

Lemma required_height_mid (e : R) :
  exists q,
    requiredHeight 2 (0 + 10)%js (0 + 10)%js 868 (mkSample 45 7.01 e 1)
    = Fin q /\ 9 < q < 21.
Proof.
  unfold requiredHeight, adjustedLineHeight, localFresnelRadius,
    calculateEarthBulge, d2_at, d1_at, earthRadius.
  cbn [s_distance sub neg add].
  rewrite calculateFresnelRadius_fin by lra.
  simpl. rewrite !(Reqb_false 2 0) by lra. simpl.
  rewrite (Reqb_false (2 * 6371) 0) by lra. simpl.
  eexists. split; [reflexivity|].
  pose proof (sqrt_pos (1 * (2 + - (1)) / (868 * (1 + (2 + - (1)))))) as Hs.
  assert (Hs1 : sqrt (1 * (2 + - (1)) / (868 * (1 + (2 + - (1))))) <= 1).
  { apply Rle_trans with (sqrt 1); [|rewrite sqrt_1; lra].
    apply sqrt_le_1_alt.
    replace (1 * (2 + - (1)) / (868 * (1 + (2 + - (1))))) with (/ 1736)
      by (field; lra).
    lra. }
  lra.
Qed.

(** The building stands on the middle sample. *)
Lemma building_at_mid_near (e h : num) :
  lt (calculateDistance (s_lat (mkSample 45 7.01 e 1))
        (s_lon (mkSample 45 7.01 e 1))
        (b_lat (building_at_mid h)) (b_lon (building_at_mid h))) 0.05 = true.
Proof.
  cbn [s_lat s_lon b_lat b_lon building_at_mid].
  rewrite calculateDistance_self. simpl. apply Rltb_true. lra.
Qed.

Lemma flat_obstructionHeight (h : R) :
  0 <= h ->
  obstructionHeight [building_at_mid h] (mkSample 45 7.01 0 1) = Fin h.
Proof.
  intro Hh. unfold obstructionHeight. cbn [fold_left].
  unfold raise_to_building. rewrite building_at_mid_near.
  cbn [s_elevation b_height building_at_mid add].
  rewrite Math_max_fin. f_equal. rewrite Rmax_right; lra.
Qed.

(** The verdict on the three-sample profiles rests on the middle sample. *)
Lemma three_samples_verdict (e : num) (bs : list Building) :
  hasLoS (analyzeLineOfSight
            (mkProfile [mkSample 45 7 0 0; mkSample 45 7.01 e 1;
                        mkSample 45 7.02 0 2] 2) 10 10 0 868 bs)
  = negb (obstructed 2 (0 + 10)%js (0 + 10)%js 868 bs (mkSample 45 7.01 e 1)).
Proof.
  rewrite (analyzeLineOfSight_scan
             (mkProfile [mkSample 45 7 0 0; mkSample 45 7.01 e 1;
                         mkSample 45 7.02 0 2] 2) 10 10 0 868 bs
             (mkSample 45 7 0 0) (mkSample 45 7.01 e 1)
             [mkSample 45 7.02 0 2] eq_refl).
  cbn zeta. cbn [hasLoS profile totalDistance s_elevation last].
  change (interior [mkSample 45 7 0 0; mkSample 45 7.01 e 1;
                    mkSample 45 7.02 0 2]) with [mkSample 45 7.01 e 1].
  cbn [filter]. now destruct (obstructed _ _ _ _ bs _).
Qed.

Lemma flat_with_building (h : R) :
  0 <= h ->
  (h <= 9 ->
   hasLoS (analyzeLineOfSight flat_profile 10 10 0 868 [building_at_mid h])
   = true) /\
  (21 <= h ->
   hasLoS (analyzeLineOfSight flat_profile 10 10 0 868 [building_at_mid h])
   = false).
Proof.
  intro Hh. unfold flat_profile. rewrite three_samples_verdict.
  unfold obstructed, gt. rewrite flat_obstructionHeight by exact Hh.
  destruct (required_height_mid 0) as [q [-> Hq]]. cbn [lt].
  split; intro H.
  - rewrite Rltb_false by lra. reflexivity.
  - rewrite Rltb_true by lra. reflexivity.
Qed.

Lemma buildings_and_line_of_sight_witness :
  obstructionHeight [building_at_mid 5] (mkSample 45 7.01 0 1) = Fin 5 /\
  hasLoS (analyzeLineOfSight flat_profile 10 10 0 868 [building_at_mid 5])
  = true /\
  hasLoS (analyzeLineOfSight flat_profile 10 10 0 868 []) = true /\
  hasLoS (analyzeLineOfSight flat_profile 10 10 0 868 [building_at_mid 50])
  = false /\
  hasLoS (analyzeLineOfSight hill_profile 10 10 0 868 []) = false /\
  hasLoS (analyzeLineOfSight hill_profile 10 10 0 868 [building_at_mid NaN])
  = true.
Proof.
  assert (H5 : hasLoS (analyzeLineOfSight flat_profile 10 10 0 868
                         [building_at_mid 5]) = true)
    by (apply (flat_with_building 5); lra).
  split; [apply flat_obstructionHeight; lra|].
  split; [exact H5|]. split; [|split; [|split]].
  - apply (buildings_and_line_of_sight flat_profile 10 10 0 868
             [building_at_mid 5]).
    + simpl. lia.
    + repeat constructor. eexists; reflexivity.
    + repeat constructor. eexists; reflexivity.
    + exact H5.
  - apply (flat_with_building 50); lra.
  - unfold hill_profile. rewrite three_samples_verdict.
    now rewrite hill_sample_obstructed.
  - apply (buildings_and_line_of_sight hill_profile 10 10 0 868
             [building_at_mid NaN]) with (b := building_at_mid NaN).
    + simpl. lia.
    + repeat constructor. eexists; reflexivity.
    + left. reflexivity.
    + reflexivity.
    + intros pt [<-|[]]. apply building_at_mid_near.
Defined.

Lemma obstructions_of_scan ep h1 h2 fr f bs o :
  In o (obstructions (analyzeLineOfSight ep h1 h2 fr f bs)) ->
  exists first second rest pt,
    profile ep = first :: second :: rest /\
    In pt (interior (profile ep)) /\
    let total := totalDistance ep in
    let startE := (s_elevation first + h1)%js in
    let endE := (s_elevation (last rest second) + h2)%js in
    obstructed total startE endE f bs pt = true /\
    o = obstruction_at total startE endE f bs pt.
Proof.
  destruct (profile ep) as [|a [|b l]] eqn:Hp.
  - unfold analyzeLineOfSight. rewrite Hp. intros [].
  - unfold analyzeLineOfSight. rewrite Hp. intros [].
  - rewrite (analyzeLineOfSight_scan ep h1 h2 fr f bs _ _ _ Hp).
    cbn zeta. cbn [obstructions]. intro H.
    apply in_map_iff in H. destruct H as [pt [<- Hpt]].
    apply filter_In in Hpt. destruct Hpt as [Hin Hob].
    rewrite Hp in Hin.
    exists a, b, l, pt. repeat split; assumption.
Qed.

Lemma hill_obstructions :
  obstructions (analyzeLineOfSight hill_profile 10 10 0 868 [])
  = [obstruction_at 2 (0 + 10)%js (0 + 10)%js 868 []
       (mkSample 45 7.01 500 1)].
Proof.
  assert (Hb : obstructed 2 (0 + 10)%js (0 + 10)%js 868 []
                 (mkSample 45 7.01 500 1) = true).
  { unfold obstructed, gt. destruct hill_required_height as [h [-> Hh]].
    unfold obstructionHeight. simpl. now apply Rltb_true. }
  rewrite (analyzeLineOfSight_scan hill_profile 10 10 0 868 []
             (mkSample 45 7 0 0) (mkSample 45 7.01 500 1)
             [mkSample 45 7.02 0 2] eq_refl).
  cbn zeta. cbn [obstructions].
  change (interior (profile hill_profile)) with [mkSample 45 7.01 500 1].
  cbn [filter map totalDistance hill_profile s_elevation last].
  now rewrite Hb.
Qed.

(** X22: every recorded obstruction sits at an interior sample of the
    profile (its distance and position are the sample's), its height exceeds
    its required height, its excess is their difference, and it is typed
    building exactly when its height exceeds the sample's terrain elevation
    plus 5. *)
Theorem obstructions_are_interior_samples
    (ep : ElevationProfile) (h1 h2 fr f : num) (bs : list Building)
    (o : Obstruction) :
  In o (obstructions (analyzeLineOfSight ep h1 h2 fr f bs)) ->
  gt (o_elevation o) (o_requiredHeight o) = true /\
  o_obstruction o = (o_elevation o - o_requiredHeight o)%js /\
  exists pt,
    In pt (interior (profile ep)) /\
    o_distance o = s_distance pt /\
    o_lat o = s_lat pt /\ o_lon o = s_lon pt /\
    o_elevation o = obstructionHeight bs pt /\
    (o_type o = building <->
     gt (o_elevation o) (s_elevation pt + 5)%js = true).
Proof.
  intro H. apply obstructions_of_scan in H.
  destruct H as [first [second [rest [pt [Hp [Hin [Hob ->]]]]]]].
  cbn [o_elevation o_requiredHeight o_obstruction o_distance o_lat o_lon
       o_type obstruction_at].
  split; [exact Hob|]. split; [reflexivity|].
  exists pt. repeat split; try assumption.
  - destruct (gt _ _); [reflexivity | discriminate].
  - intro K. now rewrite K.
Qed.

Lemma obstructions_are_interior_samples_witness :
  let o := obstruction_at 2 (0 + 10)%js (0 + 10)%js 868 []
             (mkSample 45 7.01 500 1) in
  gt (o_elevation o) (o_requiredHeight o) = true.
Proof.
  apply (obstructions_are_interior_samples hill_profile 10 10 0 868 []).
  rewrite hill_obstructions. left. reflexivity.
Defined.

Lemma gt_plus_5_false (e : num) : gt e (e + 5)%js = false.
Proof.
  destruct e; simpl; try reflexivity. apply Rltb_false. lra.
Qed.

(** X23: with no buildings every recorded obstruction is typed terrain and
    its height is the terrain elevation of its sample, for every profile
    and every number. *)
Theorem obstructions_without_buildings_are_terrain
    (ep : ElevationProfile) (h1 h2 fr f : num) (o : Obstruction) :
  In o (obstructions (analyzeLineOfSight ep h1 h2 fr f [])) ->
  o_type o = terrain /\
  exists pt, In pt (interior (profile ep)) /\
             o_elevation o = s_elevation pt.
Proof.
  intro H. apply obstructions_of_scan in H.
  destruct H as [first [second [rest [pt [Hp [Hin [Hob ->]]]]]]].
  cbn [o_type o_elevation obstruction_at]. unfold obstructionHeight.
  cbn [fold_left]. rewrite gt_plus_5_false.
  split; [reflexivity|]. exists pt. split; [assumption | reflexivity].
Qed.

Lemma obstructions_without_buildings_are_terrain_witness :
  o_type (obstruction_at 2 (0 + 10)%js (0 + 10)%js 868 []
            (mkSample 45 7.01 500 1)) = terrain.
Proof.
  apply (obstructions_without_buildings_are_terrain
           hill_profile 10 10 0 868).
  rewrite hill_obstructions. left. reflexivity.
Defined.

Lemma fold_min_NaN l : fold_left Math_min l NaN = NaN.
Proof. induction l as [|x l IH]; simpl; [reflexivity | exact IH]. Qed.

Lemma Math_min_le (a x : num) :
  is_nan (Math_min a x) = false ->
  le (Math_min a x) a = true /\ le (Math_min a x) x = true.
Proof.
  destruct a, x; simpl; try discriminate; intros _;
    unfold Math_min; simpl; unfold Rltb, Rleb;
    repeat match goal with
      | |- context [Rlt_dec ?u ?v] => destruct (Rlt_dec u v)
      end; simpl; unfold Rleb;
    repeat match goal with
      | |- context [Rle_dec ?u ?v] => destruct (Rle_dec u v)
      end; split; try reflexivity; lra.
Qed.

Lemma num_le_trans (a b c : num) : le a b = true -> le b c = true -> le a c = true.
Proof.
  destruct a, b, c; simpl; intros H1 H2; try reflexivity; try discriminate.
  apply Rleb_iff in H1, H2. apply Rleb_true. lra.
Qed.

Lemma fold_min_lower l a :
  is_nan (fold_left Math_min l a) = false ->
  le (fold_left Math_min l a) a = true /\
  forall x, In x l -> le (fold_left Math_min l a) x = true.
Proof.
  revert a. induction l as [|y l IH]; intros a H; cbn [fold_left] in *.
  - split; [|intros ? []]. destruct a; simpl in *; try reflexivity;
      try discriminate. apply Rleb_true. lra.
  - destruct (IH _ H) as [H1 H2].
    assert (Hn : is_nan (Math_min a y) = false).
    { destruct (Math_min a y) eqn:E; try reflexivity.
      rewrite fold_min_NaN in H. discriminate. }
    destruct (Math_min_le a y Hn) as [Ha Hy].
    split; [eapply num_le_trans; eassumption|].
    intros x [<-|Hx]; [eapply num_le_trans; eassumption | now apply H2].
Qed.

(** X24: on a profile with at least 2 samples the reported clearance, unless
    it is NaN, is a lower bound of the clearance percentage of every
    interior sample. *)
Theorem fresnelClearance_lower_bound
    (ep : ElevationProfile) (h1 h2 fr f : num) (bs : list Building)
    (first second : Sample) (rest : list Sample) (pt : Sample) :
  profile ep = first :: second :: rest ->
  is_nan (fresnelClearance (analyzeLineOfSight ep h1 h2 fr f bs)) = false ->
  In pt (interior (profile ep)) ->
  le (fresnelClearance (analyzeLineOfSight ep h1 h2 fr f bs))
     (fresnelClearancePercent (totalDistance ep)
        (s_elevation first + h1)%js
        (s_elevation (last rest second) + h2)%js f bs pt) = true.
Proof.
  intros Hp. rewrite (analyzeLineOfSight_scan ep h1 h2 fr f bs _ _ _ Hp).
  cbn zeta. cbn [fresnelClearance]. intros Hn Hin.
  apply fold_min_lower; [exact Hn|].
  apply in_map. exact Hin.
Qed.

Lemma fresnelClearance_lower_bound_witness :
  le (fresnelClearance (analyzeLineOfSight hill_profile 10 10 0 868 []))
     (fresnelClearancePercent 2 (0 + 10)%js (0 + 10)%js 868 []
        (mkSample 45 7.01 500 1)) = true.
Proof.
  apply (fresnelClearance_lower_bound hill_profile 10 10 0 868 []
           (mkSample 45 7 0 0) (mkSample 45 7.01 500 1)
           [mkSample 45 7.02 0 2] (mkSample 45 7.01 500 1) eq_refl).
  - rewrite (analyzeLineOfSight_scan hill_profile 10 10 0 868 []
               (mkSample 45 7 0 0) (mkSample 45 7.01 500 1)
               [mkSample 45 7.02 0 2] eq_refl).
    cbn zeta. cbn [fresnelClearance].
    change (interior (profile hill_profile)) with [mkSample 45 7.01 500 1].
    cbn [map fold_left totalDistance hill_profile s_elevation last].
    unfold fresnelClearancePercent.
    rewrite hill_radius.
    unfold adjustedLineHeight, calculateEarthBulge, d2_at, d1_at,
      earthRadius, obstructionHeight.
    simpl. rewrite !(Reqb_false 2 0) by lra. simpl.
    rewrite (Reqb_false (2 * 6371) 0) by lra. simpl.
    match goal with
    | |- context [Reqb ?x 0] => rewrite (Reqb_false x 0)
    end; [reflexivity|].
    apply Rgt_not_eq, Rmult_lt_0_compat; [lra|]. apply sqrt_lt_R0.
    apply Rmult_lt_0_compat; [lra|]. apply Rinv_0_lt_compat. lra.
  - simpl. auto.
Defined.

(** ** Elevation profiles *)

Lemma map_index_length {A B} (f : nat -> A -> B) i l :
  length (map_index f i l) = length l.
Proof.
  revert i. induction l as [|x l IH]; intro i; simpl; [reflexivity|].
  now rewrite IH.
Qed.

Lemma map_index_nth {A B} (f : nat -> A -> B) i l k :
  nth_error (map_index f i l) k = option_map (f (i + k)%nat) (nth_error l k).
Proof.
  revert i k. induction l as [|x l IH]; intros i [|k]; simpl;
    try reflexivity.
  - now rewrite Nat.add_0_r.
  - rewrite IH. now rewrite Nat.add_succ_r.
Qed.

Lemma map_index_In {A B} (f : nat -> A -> B) i l y :
  In y (map_index f i l) -> exists k x, In x l /\ y = f k x.
Proof.
  revert i. induction l as [|x l IH]; intro i; simpl; [intros []|].
  intros [<-|H]; [eauto|].
  destruct (IH _ H) as [k [x' [Hx ->]]]. eauto.
Qed.

Lemma or_zero_not_nan v : is_nan (or_zero v) = false.
Proof.
  destruct v as [[|n]|]; simpl; try reflexivity.
  destruct n; simpl; try reflexivity.
  destruct (Reqb r 0); reflexivity.
Qed.

Lemma interpolatePath_length lat1 lon1 lat2 lon2 n :
  length (interpolatePath lat1 lon1 lat2 lon2 (Some n)) = S n.
Proof. unfold interpolatePath. now rewrite length_map, length_seq. Qed.

(** X25: whatever the elevation service answers, the profile built for
    numSamples = n has n + 1 samples, sample i sits at the i-th interpolated
    point, and no elevation in it is NaN (a missing, NaN or zero answer
    reads as 0); with n >= 1 the line-of-sight analysis of that profile
    never returns the degenerate result. *)
Theorem getElevationProfile_samples
    (getElevations : list Point -> list value) (point1 point2 : Point)
    (n : nat) :
  let r := getElevationProfile getElevations point1 point2 (Some n) in
  let path :=
    interpolatePath (p_lat point1) (p_lon point1)
      (p_lat point2) (p_lon point2) (Some n) in
  length (profile (pr_profile r)) = S n /\
  (forall s, In s (profile (pr_profile r)) -> is_nan (s_elevation s) = false) /\
  (forall i s, nth_error (profile (pr_profile r)) i = Some s ->
     nth_error path i = Some (mkPoint (s_lat s) (s_lon s))) /\
  totalDistance (pr_profile r)
  = calculateDistance (p_lat point1) (p_lon point1)
      (p_lat point2) (p_lon point2) /\
  ((1 <= n)%nat ->
   forall h1 h2 fr f bs,
     quality (analyzeLineOfSight (pr_profile r) h1 h2 fr f bs) <> None).
Proof.
  intros r path. unfold r, getElevationProfile. cbn [pr_profile profile].
  fold path.
  assert (Hlen : length path = S n) by apply interpolatePath_length.
  split; [now rewrite map_index_length|].
  split.
  { intros s Hs. apply map_index_In in Hs. destruct Hs as [k [x [_ ->]]].
    unfold sample_at. cbn [s_elevation]. apply or_zero_not_nan. }
  split.
  { intros i s Hs. rewrite map_index_nth in Hs.
    destruct (nth_error path i) as [pt|]; [|discriminate].
    simpl in Hs. injection Hs as <-. unfold sample_at. cbn [s_lat s_lon].
    now destruct pt. }
  split; [reflexivity|].
  intros Hn h1 h2 fr f bs. unfold analyzeLineOfSight. cbn [profile].
  destruct (map_index _ 0 path) as [|a [|b l]] eqn:E.
  - apply (f_equal (@length _)) in E.
    rewrite map_index_length, Hlen in E. discriminate.
  - apply (f_equal (@length _)) in E.
    rewrite map_index_length, Hlen in E. cbn [length] in E. lia.
  - destruct (fold_left _ _ _). discriminate.
Qed.

Lemma getElevationProfile_samples_witness :
  quality
    (analyzeLineOfSight
       (pr_profile
          (getElevationProfile (fun batch => map (fun _ => Num 0) batch)
             (mkPoint 45 7) (mkPoint 45 7.1) (Some 4%nat)))
       10 10 0 868 []) <> None.
Proof.
  apply (getElevationProfile_samples (fun batch => map (fun _ => Num 0) batch)
           (mkPoint 45 7) (mkPoint 45 7.1) 4).
  lia.
Defined.

Lemma profile_distance_nth
    (getElevations : list Point -> list value) (point1 point2 : Point)
    (n i : nat) (D : R) s :
  calculateDistance (p_lat point1) (p_lon point1)
    (p_lat point2) (p_lon point2) = Fin D ->
  (1 <= n)%nat ->
  nth_error
    (profile (pr_profile
                (getElevationProfile getElevations point1 point2 (Some n))))
    i = Some s ->
  s_distance s = Fin (INR i / INR n * D).
Proof.
  intros HD Hn Hs. unfold getElevationProfile in Hs.
  cbn [pr_profile profile] in Hs. rewrite map_index_nth in Hs.
  destruct (nth_error _ i) as [pt|]; [|discriminate].
  simpl in Hs. injection Hs as <-. unfold sample_at. cbn [s_distance].
  rewrite interpolatePath_length, HD. unfold of_nat.
  cbn [sub neg add div]. rewrite S_INR.
  assert (Hpos : 0 < INR n) by (apply lt_0_INR; lia).
  rewrite (Reqb_false (INR n + 1 + - (1)) 0) by lra.
  cbn [mul]. f_equal. f_equal. f_equal. lra.
Qed.

(** X26: when the haversine distance D between the end points is finite
    and non-negative and numSamples = n >= 1, sample i of the profile is at
    distance (i / n) x D: the first at 0, the last at D, and the distances
    never decrease along the profile. *)
Theorem getElevationProfile_distances
    (getElevations : list Point -> list value) (point1 point2 : Point)
    (n : nat) (D : R) :
  calculateDistance (p_lat point1) (p_lon point1)
    (p_lat point2) (p_lon point2) = Fin D ->
  0 <= D -> (1 <= n)%nat ->
  let samples :=
    profile (pr_profile
               (getElevationProfile getElevations point1 point2 (Some n))) in
  (forall i s, nth_error samples i = Some s ->
     s_distance s = Fin (INR i / INR n * D)) /\
  (exists s, nth_error samples 0 = Some s /\ s_distance s = Fin 0) /\
  (exists s, nth_error samples n = Some s /\ s_distance s = Fin D) /\
  (forall i j s t, (i <= j)%nat ->
     nth_error samples i = Some s -> nth_error samples j = Some t ->
     le (s_distance s) (s_distance t) = true).
Proof.
  intros HD HD0 Hn samples.
  assert (Hpos : 0 < INR n) by (apply lt_0_INR; lia).
  assert (Hnth : forall i s, nth_error samples i = Some s ->
                 s_distance s = Fin (INR i / INR n * D)).
  { intros i s. now apply profile_distance_nth. }
  assert (Hlen : length samples = S n).
  { unfold samples, getElevationProfile. cbn [pr_profile profile].
    now rewrite map_index_length, interpolatePath_length. }
  split; [exact Hnth|]. split; [|split].
  - destruct (nth_error samples 0) as [s|] eqn:E.
    + exists s. split; [reflexivity|]. rewrite (Hnth _ _ E). simpl.
      f_equal. unfold Rdiv. ring.
    + apply nth_error_None in E. lia.
  - destruct (nth_error samples n) as [s|] eqn:E.
    + exists s. split; [reflexivity|]. rewrite (Hnth _ _ E).
      f_equal. field. lra.
    + apply nth_error_None in E. lia.
  - intros i j s t Hij Hs Ht. rewrite (Hnth _ _ Hs), (Hnth _ _ Ht). simpl.
    apply Rleb_true. apply Rmult_le_compat_r; [exact HD0|].
    apply Rmult_le_compat_r; [left; now apply Rinv_0_lt_compat|].
    now apply le_INR.
Qed.

Lemma getElevationProfile_distances_witness :
  exists D s0 s4,
    calculateDistance 45 7 46 8 = Fin D /\ 0 < D /\
    nth_error
      (profile (pr_profile
               (getElevationProfile (fun batch => map (fun _ => Num 0) batch)
                  (mkPoint 45 7) (mkPoint 46 8) (Some 4%nat)))) 0 = Some s0 /\
    s_distance s0 = Fin 0 /\
    nth_error
      (profile (pr_profile
               (getElevationProfile (fun batch => map (fun _ => Num 0) batch)
                  (mkPoint 45 7) (mkPoint 46 8) (Some 4%nat)))) 4 = Some s4 /\
    s_distance s4 = Fin D /\
    le (s_distance s0) (s_distance s4) = true.
Proof.
  destruct (calculateDistance_positive 45 7 46 8) as [D [HD Hpos]]; try lra.
  destruct (getElevationProfile_distances
              (fun batch => map (fun _ => Num 0) batch)
              (mkPoint 45 7) (mkPoint 46 8) 4 D HD)
    as [_ [[s0 [H0 D0]] [[s4 [H4 D4]] Hmono]]]; [lra | lia |].
  exists D, s0, s4.
  repeat (split; [assumption|]).
  apply (Hmono 0%nat 4%nat s0 s4); [lia | exact H0 | exact H4].
Defined.

(** The fuel of the batch loop is enough: more of it changes nothing. *)
Lemma fetch_from_fuel (getElevations : list Point -> list value)
    (pts : list Point) (fuel extra i : nat) (acc : list value) :
  (length pts - i <= fuel)%nat ->
  fetch_from getElevations (fuel + extra) i pts acc
  = fetch_from getElevations fuel i pts acc.
Proof.
  revert i acc. induction fuel as [|fuel IH]; intros i acc H.
  - destruct extra as [|extra]; [reflexivity|]. cbn [Nat.add fetch_from].
    destruct (Nat.ltb_spec i (length pts)); [lia | reflexivity].
  - cbn [Nat.add fetch_from].
    destruct (Nat.ltb_spec i (length pts)); [|reflexivity].
    apply IH. unfold batchSize. lia.
Qed.

Lemma fetch_from_pointwise (getElevations : list Point -> list value)
    (g : Point -> value) (pts : list Point) :
  (forall batch, getElevations batch = map g batch) ->
  forall fuel i acc,
    (length pts - i <= fuel)%nat ->
    fetch_from getElevations fuel i pts acc = acc ++ map g (skipn i pts).
Proof.
  intros Hg. induction fuel as [|fuel IH]; intros i acc H.
  - cbn [fetch_from]. rewrite skipn_all2 by lia. simpl. now rewrite app_nil_r.
  - cbn [fetch_from]. destruct (Nat.ltb_spec i (length pts)) as [Hi|Hi].
    + rewrite IH by (unfold batchSize; lia). rewrite Hg.
      rewrite <- app_assoc. f_equal. rewrite <- map_app. f_equal.
      unfold slice. replace (i + batchSize - i)%nat with batchSize by lia.
      transitivity (firstn batchSize (skipn i pts)
                    ++ skipn batchSize (skipn i pts));
        [|apply firstn_skipn].
      f_equal. rewrite skipn_skipn. f_equal. lia.
    + rewrite skipn_all2 by lia. simpl. now rewrite app_nil_r.
Qed.

Lemma sample_elevations (P : list Point) (elevs : list value) (D : num)
    (g : Point -> value) (l : list Point) (i : nat) :
  (forall k x, nth_error l k = Some x ->
               nth_error elevs (i + k) = Some (g x)) ->
  map s_elevation (map_index (sample_at P elevs D) i l)
  = map (fun p => or_zero (Some (g p))) l.
Proof.
  revert i. induction l as [|x l IH]; intros i H; [reflexivity|].
  cbn [map_index map]. f_equal.
  - unfold sample_at. cbn [s_elevation].
    rewrite <- (Nat.add_0_r i) at 1. now rewrite (H 0%nat x eq_refl).
  - apply IH. intros k y Hy. rewrite Nat.add_succ_comm.
    now apply (H (S k) y).
Qed.

(** X27: when the elevation service answers every batch location by
    location, with g(location), the elevations of the profile are those of
    the interpolated points in path order, whatever the number of samples:
    cutting the path into batches of 50 loses, repeats and reorders
    nothing. *)
Theorem getElevationProfile_batches
    (getElevations : list Point -> list value) (g : Point -> value)
    (point1 point2 : Point) (n : option nat) :
  (forall batch, getElevations batch = map g batch) ->
  map s_elevation
    (profile (pr_profile (getElevationProfile getElevations point1 point2 n)))
  = map (fun p => or_zero (Some (g p)))
      (interpolatePath (p_lat point1) (p_lon point1)
         (p_lat point2) (p_lon point2) n).
Proof.
  intro Hg. unfold getElevationProfile. cbn [pr_profile profile].
  rewrite (fetch_from_pointwise getElevations g _ Hg) by lia.
  cbn [skipn app]. apply sample_elevations.
  intros k x Hx. cbn [Nat.add]. now apply map_nth_error.
Qed.

Lemma getElevationProfile_batches_witness :
  map s_elevation
    (profile (pr_profile
                (getElevationProfile (fun batch => map (fun _ => Num 7) batch)
                   (mkPoint 45 7) (mkPoint 45 7.1) (Some 60%nat))))
  = map (fun p => or_zero (Some (Num 7)))
      (interpolatePath 45 7 45 7.1 (Some 60%nat)).
Proof.
  apply (getElevationProfile_batches
           (fun batch => map (fun _ => Num 7) batch) (fun _ => Num 7)
           (mkPoint 45 7) (mkPoint 45 7.1) (Some 60%nat)).
  reflexivity.
Defined.

(** ** Unknown modulation settings *)

(** X28: the calculator validates no modulation setting.  With a bandwidth
    outside the table both [calculateLinkBudget] and [calculateMaxRange]
    throw; with a listed bandwidth and a spreading factor outside the table
    they return: the sensitivity is undefined, the link margin is NaN, the
    status is nevertheless excellent, and the maximum range is NaN. *)
Theorem budget_on_unknown_modulation (p : Params) :
  (~ is_key bw_keys (bw p) ->
   calculateLinkBudget p = Throw TypeError /\
   calculateMaxRange p = Throw TypeError) /\
  (is_key bw_keys (bw p) -> ~ is_key sf_keys (sf p) ->
   (exists r, calculateLinkBudget p = Ret r /\
              sensitivity r = Undefined /\ linkMargin r = NaN /\
              status r = excellent) /\
   calculateMaxRange p = Ret NaN).
Proof.
  split.
  - intro H. unfold calculateLinkBudget, calculateMaxRange.
    rewrite (getSensitivity_throws _ _ H). split; reflexivity.
  - intros Hbw Hsf. unfold calculateLinkBudget, calculateMaxRange.
    rewrite (getSensitivity_undefined _ _ Hbw Hsf). cbn [bind to_num].
    split.
    + eexists. split; [reflexivity|].
      cbn [sensitivity linkMargin status]. rewrite sub_NaN_r.
      repeat split.
    + rewrite sub_NaN_r, !sub_NaN_l. reflexivity.
Qed.

Lemma budget_on_unknown_modulation_witness :
  calculateLinkBudget (mkParams 14 2 2 868 1 7 100 5 None) = Throw TypeError /\
  calculateMaxRange (mkParams 14 2 2 868 1 13 125 5 None) = Ret NaN.
Proof.
  split.
  - apply (proj1 (budget_on_unknown_modulation
                    (mkParams 14 2 2 868 1 7 100 5 None))).
    apply not_is_key_IZR. simpl. lia.
  - apply (proj2 (budget_on_unknown_modulation
                    (mkParams 14 2 2 868 1 13 125 5 None))).
    + apply is_key_IZR. simpl. auto.
    + apply not_is_key_IZR. simpl. lia.
Defined.

